(** * Template matching and polling: [template_finder.py]

    A shallow embedding of [TemplateFinder.search] and
    [TemplateFinder.search_and_wait].

    Conventions of the embedding:
    - Python floats (scores, thresholds, scale factors, the scaled ROI
      locals) are exact rationals [Q]; the comparisons the code performs
      on finite floats agree with the comparisons on [Q]. Arithmetic on
      them is exact here and rounded in the code: the two agree on the
      store [__init__] builds (every scale 1.0) with integers of
      magnitude at most 2^53, and the theorems that state a position or
      an elapsed time carry the bounds under which they agree.
    - Python exceptions are an error type [exn]; a call yields an
      [outcome] together with the objects it could have mutated.
    - numpy and OpenCV ([shape], slicing, [resize], [matchTemplate],
      [minMaxLoc], [average]) and the [Screen] coordinate mapper are
      collaborators outside the repository: they are the operations of
      the class [Cv2], over abstract image and score-field types.
      They are total functions: what OpenCV itself rejects (a zero
      resize factor, mismatched pixel types) is not modelled.
    - the capture source and the wall clock are a scripted [World]:
      the n-th grabbed frame and the n-th clock reading. [Logger.debug]
      has no bearing on results and is left out. *)

From Stdlib Require Import ZArith QArith Lia Lqa.
From stdpp Require Import gmap strings list.

Local Open Scope Z_scope.

(** ** Exceptions and outcomes *)

Inductive exn : Type :=
| KeyError (key : string)
| ValueError
| IndexError
| ZeroDivisionError
| UnboundLocalError.

Inductive outcome (A : Type) : Type :=
| Ok (a : A)
| Raise (e : exn).

Arguments Ok {A} a.
Arguments Raise {A} e.

(** ** The result value *)

Record TemplateMatch : Type := mkTemplateMatch {
  name : option string;
  score : Q;
  position : option (Z * Z);
  valid : bool
}.

(** [TemplateMatch()]: the dataclass defaults. *)
Definition TemplateMatch_default : TemplateMatch :=
  {| name := None; score := (-1)%Q; position := None; valid := false |}.

(** ** Float helpers *)

(** [a < b] on floats. *)
Definition Qltb (a b : Q) : bool := negb (Qle_bool b a).

(** [int(x)]: truncation toward zero. *)
Definition py_int (x : Q) : Z := Z.quot (Qnum x) (Z.pos (Qden x)).

(** [max(l)]: the first maximal element; [None] stands for the
    [ValueError] raised on an empty sequence. *)
Fixpoint py_max_from (cur : Q) (l : list Q) : Q :=
  match l with
  | [] => cur
  | x :: t => py_max_from (if Qltb cur x then x else cur) t
  end.

Definition py_max (l : list Q) : option Q :=
  match l with
  | [] => None
  | x :: t => Some (py_max_from x t)
  end.

(** [l.index(v)]: the first position holding a value equal to [v];
    [None] stands for the [ValueError] of a missing value. *)
Fixpoint py_index (v : Q) (l : list Q) : option nat :=
  match l with
  | [] => None
  | x :: t => if Qeq_bool x v then Some O else option_map S (py_index v t)
  end.

(** ** String helpers

    File names are taken to be ASCII, where [str.upper] changes the
    letters a-z and nothing else. *)

(** [s.endswith(suffix)]. *)
Definition py_endswith (s suffix : string) : bool :=
  (String.length suffix <=? String.length s)%nat
  && String.eqb
       (String.substring (String.length s - String.length suffix)
          (String.length suffix) s)
       suffix.

(** [s[:-4]]. *)
Definition py_drop_last4 (s : string) : string :=
  String.substring 0 (String.length s - 4) s.

Definition is_lower (c : Ascii.ascii) : bool :=
  (97 <=? Ascii.nat_of_ascii c)%nat && (Ascii.nat_of_ascii c <=? 122)%nat.

Definition upper_ascii (c : Ascii.ascii) : Ascii.ascii :=
  if is_lower c then Ascii.ascii_of_nat (Ascii.nat_of_ascii c - 32) else c.

(** [s.upper()]. *)
Fixpoint py_upper (s : string) : string :=
  match s with
  | EmptyString => EmptyString
  | String c t => String (upper_ascii c) (py_upper t)
  end.

(** Some character of [s] is one of a-z. *)
Fixpoint has_lower (s : string) : bool :=
  match s with
  | EmptyString => false
  | String c t => is_lower c || has_lower t
  end.

(** ** Collaborator interfaces *)

Class Cv2 (Image ScoreField : Type) : Type := {
  (** [img.shape]: (rows, columns). *)
  shape : Image -> Z * Z;
  (** [img[ry:ry + rh, rx:rx + rw]], arguments in the order rx ry rw rh. *)
  crop : Image -> Z -> Z -> Z -> Z -> Image;
  (** [cv2.resize(img, None, fx=s, fy=s, interpolation=INTER_NEAREST)]. *)
  resize : Image -> Q -> Image;
  (** [cv2.matchTemplate(img, template, cv2.TM_CCOEFF_NORMED)]. *)
  matchTemplate : Image -> Image -> ScoreField;
  (** [cv2.minMaxLoc(res)], keeping (max_val, max_pos). *)
  minMaxLoc : ScoreField -> Q * (Z * Z);
  (** [np.average(img[:, 0:w])]. *)
  average_left : Image -> Z -> Q;
  (** [Screen.convert_screen_to_monitor]. *)
  convert_screen_to_monitor : Z * Z -> Z * Z
}.

(** What [__init__] calls outside the class: [os.path.basename] and
    [utils.misc.load_template]. *)
Class Assets (Image : Type) : Type := {
  basename : string -> string;
  load_template : string -> Q -> Image
}.

(** The part of [Config] the finder reads. *)
Record Config : Type := mkConfig {
  template_threshold : Q;
  loading_left_black : Z * Z * Z * Z;
  info_screenshots : bool
}.

Section Finder.

Context {Image ScoreField : Type} `{CV : Cv2 Image ScoreField}.

(** ** Instance state *)

Record TemplateFinder : Type := mkTemplateFinder {
  _config : Config;
  _scale_factor : Q;
  last_res : option ScoreField;
  _templates : gmap string (Image * Q)
}.

Definition set_last_res (res : ScoreField) (self : TemplateFinder) : TemplateFinder :=
  {| _config := _config self;
     _scale_factor := _scale_factor self;
     last_res := Some res;
     _templates := _templates self |}.

(** The objects a call to [search] can reach and mutate: the finder
    instance and the list object [left, top, width, height] the caller
    passed as [roi] ([None] when the argument was omitted). *)
Record Heap : Type := mkHeap {
  self_obj : TemplateFinder;
  roi_obj : option (Z * Z * Z * Z)
}.

Definition with_self (self : TemplateFinder) (h : Heap) : Heap :=
  {| self_obj := self; roi_obj := roi_obj h |}.

(** [self.get_template(key)]. *)
Definition get_template (self : TemplateFinder) (key : string) : outcome Image :=
  match _templates self !! key with
  | Some entry => Ok (fst entry)
  | None => Raise (KeyError key)
  end.

(** ** The reference argument *)

Inductive Ref : Type :=
| Key (k : string)
| KeyList (ks : list string)
| RawImage (buf : Image).

(** [len(ref)]. *)
Definition ref_len (ref : Ref) : nat :=
  match ref with
  | Key k => String.length k
  | KeyList ks => length ks
  | RawImage buf => Z.to_nat (fst (shape buf))
  end.

(** [[self._templates[i] for i in ref]]: the first unregistered key
    raises [KeyError]. *)
Fixpoint lookup_all (store : gmap string (Image * Q)) (ks : list string)
  : outcome (list (Image * Q)) :=
  match ks with
  | [] => Ok []
  | k :: t =>
      match store !! k with
      | None => Raise (KeyError k)
      | Some entry =>
          match lookup_all store t with
          | Ok es => Ok (entry :: es)
          | Raise e => Raise e
          end
      end
  end.

(** ** The local variables of [search] *)

Record Locals : Type := mkLocals {
  rx : Q;
  ry : Q;
  rw : Q;
  rh : Q;
  scores : list Q;
  ref_points : list (Z * Z);
  template_match : option TemplateMatch
}.

Inductive LoopExit : Type :=
| Returned (m : TemplateMatch)
| Completed
| Raised (e : exn).

(** [names[i]] under [try: ... except: pass]: an unbound [names] or an
    index out of range leaves the name unset. *)
Definition name_at (names : option (list string)) (i : nat) : option string :=
  match names with
  | Some ns => ns !! i
  | None => None
  end.

(** Lines 98-99: the centre of the template, un-scaled. *)
Definition ref_point_of (template : Image) (scale rx ry : Q) (max_pos : Z * Z)
  : Z * Z :=
  let x := (inject_Z (fst max_pos + py_int (inject_Z (snd (shape template)) * (1 # 2))) + rx)%Q in
  let y := (inject_Z (snd max_pos + py_int (inject_Z (fst (shape template)) * (1 # 2))) + ry)%Q in
  (py_int (x * (1 / scale)), py_int (y * (1 / scale))).

(** Lines 84-113: the loop over [enumerate(templates)]; [cands] pairs
    each remaining template with its entry of [scales]. *)
Fixpoint search_loop (names : option (list string)) (inp_img : Image)
    (threshold : Q) (normalize_monitor best_match : bool)
    (cands : list (Image * Q)) (count : nat)
    (lc : Locals) (self : TemplateFinder)
  : LoopExit * Locals * TemplateFinder :=
  match cands with
  | [] => (Completed, lc, self)
  | (template, scale) :: rest =>
      let img := resize inp_img scale in
      let lc1 :=
        {| rx := (rx lc * scale)%Q; ry := (ry lc * scale)%Q;
           rw := (rw lc * scale)%Q; rh := (rh lc * scale)%Q;
           scores := scores lc; ref_points := ref_points lc;
           template_match := Some TemplateMatch_default |} in
      if (fst (shape template) <? fst (shape img))
         && (snd (shape template) <? snd (shape img))
      then
        let res := matchTemplate img template in
        let self1 := set_last_res res self in
        let '(max_val, max_pos) := minMaxLoc res in
        if Qltb threshold max_val then
          if Qeq_bool scale 0 then (Raised ZeroDivisionError, lc1, self1)
          else
            let p := ref_point_of template scale (rx lc1) (ry lc1) max_pos in
            let ref_point :=
              if normalize_monitor then convert_screen_to_monitor p else p in
            if best_match then
              if (count <? length (scores lc1))%nat then
                if (count <? length (ref_points lc1))%nat then
                  let lc2 :=
                    {| rx := rx lc1; ry := ry lc1; rw := rw lc1; rh := rh lc1;
                       scores := <[count := max_val]> (scores lc1);
                       ref_points := <[count := ref_point]> (ref_points lc1);
                       template_match := template_match lc1 |} in
                  search_loop names inp_img threshold normalize_monitor
                    best_match rest (S count) lc2 self1
                else (Raised IndexError, lc1, self1)
              else (Raised IndexError, lc1, self1)
            else
              (Returned {| name := name_at names count;
                           score := max_val;
                           position := Some ref_point;
                           valid := true |}, lc1, self1)
        else
          search_loop names inp_img threshold normalize_monitor best_match
            rest (S count) lc1 self1
      else
        search_loop names inp_img threshold normalize_monitor best_match
          rest (S count) lc1 self
  end.

(** Lines 115-123: the selection after the loop, on the [template_match]
    object left by the last iteration. *)
Definition select_best (names : option (list string)) (lc : Locals)
  : outcome TemplateMatch :=
  match py_max (scores lc) with
  | None => Raise ValueError
  | Some mx =>
      if Qltb 0 mx then
        match py_index mx (scores lc) with
        | None => Raise ValueError
        | Some idx =>
            match ref_points lc !! idx with
            | None => Raise IndexError
            | Some p =>
                match template_match lc with
                | None => Raise UnboundLocalError
                | Some m =>
                    match scores lc !! idx with
                    | None => Raise IndexError
                    | Some s =>
                        Ok {| name := match name_at names idx with
                                      | Some n => Some n
                                      | None => name m
                                      end;
                              score := s;
                              position := Some p;
                              valid := true |}
                    end
                end
            end
        end
      else
        match template_match lc with
        | None => Raise UnboundLocalError
        | Some m => Ok m
        end
  end.

(** Lines 68-80: the dispatch on the shape of [ref], giving
    (templates with scales, names, best_match). *)
Definition dispatch (self : TemplateFinder) (ref : Ref) (best_match : bool)
  : outcome (list (Image * Q) * option (list string) * bool) :=
  match ref with
  | Key k =>
      match _templates self !! k with
      | None => Raise (KeyError k)
      | Some entry => Ok ([entry], Some [k], false)
      end
  | KeyList ks =>
      match lookup_all (_templates self) ks with
      | Raise e => Raise e
      | Ok es => Ok (es, Some ks, best_match)
      end
  | RawImage buf => Ok ([(buf, 1%Q)], None, false)
  end.

(** Line 61: the threshold in force. *)
Definition resolve_threshold (self : TemplateFinder) (threshold : option Q) : Q :=
  match threshold with
  | None => template_threshold (_config self)
  | Some t => t
  end.

(** Lines 62-64: the ROI in force. *)
Definition roi_or_full (roi : option (Z * Z * Z * Z)) (inp_img : Image)
  : Z * Z * Z * Z :=
  match roi with
  | None => (0, 0, snd (shape inp_img), fst (shape inp_img))
  | Some r => r
  end.

(** [TemplateFinder.search]; the [roi] argument is [roi_obj h]. *)
Definition search (ref : Ref) (inp_img : Image) (threshold : option Q)
    (normalize_monitor best_match : bool) (h : Heap)
  : outcome TemplateMatch * Heap :=
  let self := self_obj h in
  let threshold := resolve_threshold self threshold in
  let '(rx0, ry0, rw0, rh0) := roi_or_full (roi_obj h) inp_img in
  let inp_img := crop inp_img rx0 ry0 rw0 rh0 in
  match dispatch self ref best_match with
  | Raise e => (Raise e, h)
  | Ok (cands, names, best_match) =>
      let lc0 :=
        {| rx := inject_Z rx0; ry := inject_Z ry0;
           rw := inject_Z rw0; rh := inject_Z rh0;
           scores := replicate (ref_len ref) 0%Q;
           ref_points := replicate (ref_len ref) (0, 0);
           template_match := None |} in
      match search_loop names inp_img threshold normalize_monitor
              best_match cands O lc0 self with
      | (Returned m, _, self') => (Ok m, with_self self' h)
      | (Raised e, _, self') => (Raise e, with_self self' h)
      | (Completed, lc, self') => (select_best names lc, with_self self' h)
      end
  end.

(** ** The poll loop *)

(** The scripted environment: what [Screen.grab] and [time.time] will
    answer, how often each was called, and the images written by
    [cv2.imwrite]. *)
Record World : Type := mkWorld {
  frames : nat -> Image;
  clock : nat -> Q;
  grabs : nat;
  clock_reads : nat;
  written : list Image
}.

Definition grab (w : World) : Image * World :=
  (frames w (grabs w),
   {| frames := frames w; clock := clock w; grabs := S (grabs w);
      clock_reads := clock_reads w; written := written w |}).

Definition time_time (w : World) : Q * World :=
  (clock w (clock_reads w),
   {| frames := frames w; clock := clock w; grabs := grabs w;
      clock_reads := S (clock_reads w); written := written w |}).

Definition imwrite (img : Image) (w : World) : World :=
  {| frames := frames w; clock := clock w; grabs := grabs w;
     clock_reads := clock_reads w; written := img :: written w |}.

(** [np.average(img[:, 0:loading_left_black[2]]) < 1.0]. *)
Definition is_loading_black_roi (cfg : Config) (img : Image) : bool :=
  Qltb (average_left img (loading_left_black cfg).1.2) 1.

(** Lines 148-158: [while 1]; [None] when [fuel] iterations did not
    reach a [return]. *)
Fixpoint search_and_wait_loop (fuel : nat) (ref : list string)
    (time_out : option Q) (threshold : Q) (best_match take_ss : bool)
    (start : Q) (h : Heap) (w : World)
  : option (outcome TemplateMatch * Heap * World) :=
  match fuel with
  | O => None
  | S fuel' =>
      let '(img, w1) := grab w in
      match search (KeyList ref) img (Some threshold) false best_match h with
      | (Raise e, h1) => Some (Raise e, h1, w1)
      | (Ok tm, h1) =>
          let again w' :=
            search_and_wait_loop fuel' ref time_out threshold best_match
              take_ss start h1 w' in
          if negb (is_loading_black_roi (_config (self_obj h1)) img)
             || bool_decide ("LOADING"%string ∈ ref)
          then
            if valid tm then Some (Ok tm, h1, w1)
            else
              match time_out with
              | None => again w1
              | Some t =>
                  let '(now, w2) := time_time w1 in
                  if Qltb t (now - start) then
                    if info_screenshots (_config (self_obj h1)) && take_ss
                    then Some (Ok tm, h1, imwrite img w2)
                    else Some (Ok tm, h1, w2)
                  else again w2
              end
          else again w1
      end
  end.

(** The [ref] argument of [search_and_wait]. *)
Inductive WaitRef : Type :=
| WKey (k : string)
| WKeyList (ks : list string).

(** Lines 143-144: a single key becomes a one-element list. *)
Definition wait_keys (ref : WaitRef) : list string :=
  match ref with
  | WKey k => [k]
  | WKeyList ks => ks
  end.

(** [TemplateFinder.search_and_wait]. *)
Definition search_and_wait (fuel : nat) (ref : WaitRef)
    (time_out threshold : option Q) (best_match take_ss : bool)
    (h : Heap) (w : World)
  : option (outcome TemplateMatch * Heap * World) :=
  let ref := wait_keys ref in
  let threshold := resolve_threshold (self_obj h) threshold in
  let '(start, w0) := time_time w in
  search_and_wait_loop fuel ref time_out threshold best_match take_ss start h w0.

(** ** Vocabulary of the properties *)

(** Two finder states that differ at most in [last_res]. *)
Definition same_but_last_res (self self' : TemplateFinder) : Prop :=
  _config self' = _config self
  /\ _scale_factor self' = _scale_factor self
  /\ _templates self' = _templates self.

(** The heaps the poll loop passes through, as seen from the first one. *)
Definition heap_like (h0 h : Heap) : Prop :=
  roi_obj h = roi_obj h0 /\ same_but_last_res (self_obj h0) (self_obj h).

(** The candidates [search] iterates over: each template with its scale. *)
Definition candidates (self : TemplateFinder) (ref : Ref) : list (Image * Q) :=
  match dispatch self ref false with
  | Ok (cands, _, _) => cands
  | Raise _ => []
  end.

(** The cropped search region of line 66. *)
Definition region (roi : option (Z * Z * Z * Z)) (inp_img : Image) : Image :=
  let '(rx0, ry0, rw0, rh0) := roi_or_full roi inp_img in
  crop inp_img rx0 ry0 rw0 rh0.

(** The size guard of line 94 for one candidate. *)
Definition guard (inp_img : Image) (c : Image * Q) : bool :=
  (fst (shape c.1) <? fst (shape (resize inp_img c.2)))
  && (snd (shape c.1) <? snd (shape (resize inp_img c.2))).

(** The maximum correlation score of one candidate (lines 95-96). *)
Definition kernel_score (inp_img : Image) (c : Image * Q) : Q :=
  fst (minMaxLoc (matchTemplate (resize inp_img c.2) c.1)).

(** [x] is the score the kernel gave to a candidate that passed the guard. *)
Definition score_evaluated (cands : list (Image * Q)) (inp_img : Image) (x : Q)
  : Prop :=
  exists c, c ∈ cands /\ guard inp_img c = true /\ x = kernel_score inp_img c.

(** An entry of [scores]: the initial [0], or the score of a candidate
    that exceeded the threshold. *)
Definition recorded (cands : list (Image * Q)) (inp_img : Image) (thr x : Q)
  : Prop :=
  x = 0%Q \/ ((thr < x)%Q /\ score_evaluated cands inp_img x).

(** A candidate passes the guard and scores above the threshold. *)
Definition exceeds (inp_img : Image) (thr : Q) (c : Image * Q) : bool :=
  guard inp_img c && Qltb thr (kernel_score inp_img c).

(** What best-match mode leaves in [scores] for one candidate. *)
Definition score_entry (inp_img : Image) (thr : Q) (c : Image * Q) : Q :=
  if exceeds inp_img thr c then kernel_score inp_img c else 0%Q.

(** What best-match mode leaves in [ref_points], starting from the ROI
    origin [(rx, ry)] as the previous iterations left it. *)
Fixpoint point_entries (nm : bool) (inp_img : Image) (thr rx ry : Q)
    (cands : list (Image * Q)) : list (Z * Z) :=
  match cands with
  | [] => []
  | c :: rest =>
      let rx' := (rx * c.2)%Q in
      let ry' := (ry * c.2)%Q in
      (if exceeds inp_img thr c then
         let p := ref_point_of c.1 c.2 rx' ry'
                    (snd (minMaxLoc (matchTemplate (resize inp_img c.2) c.1))) in
         if nm then convert_screen_to_monitor p else p
       else (0, 0))
      :: point_entries nm inp_img thr rx' ry' rest
  end.

(** The ROI origin as [search] first binds it to [rx], [ry]. *)
Definition roi_origin (roi : option (Z * Z * Z * Z)) (inp_img : Image) : Q * Q :=
  let '(rx0, ry0, _, _) := roi_or_full roi inp_img in
  (inject_Z rx0, inject_Z ry0).

(** An ROI coordinate after the loop has run over the candidates [cs]:
    multiplied by the scale of each in turn (lines 89-92). *)
Definition scaled (x : Q) (cs : list (Image * Q)) : Q :=
  fold_left (fun a c => (a * c.2)%Q) cs x.

(** The [names] list bound by the dispatch, when there is one. *)
Definition ref_names (ref : Ref) : option (list string) :=
  match ref with
  | Key k => Some [k]
  | KeyList ks => Some ks
  | RawImage _ => None
  end.

(** The point lines 98-102 compute for candidate [c] when the ROI origin
    has become [(x, y)]. *)
Definition found_point (nm : bool) (inp_img : Image) (x y : Q) (c : Image * Q)
  : Z * Z :=
  let p := ref_point_of c.1 c.2 x y
             (snd (minMaxLoc (matchTemplate (resize inp_img c.2) c.1))) in
  if nm then convert_screen_to_monitor p else p.

(** [ref] names a key the store does not hold. *)
Definition mentions_unregistered (store : gmap string (Image * Q)) (ref : Ref)
  : Prop :=
  match ref with
  | Key k => store !! k = None
  | KeyList ks => exists k, k ∈ ks /\ store !! k = None
  | RawImage _ => False
  end.

(** What a valid result carries. *)
Definition well_formed_match (cands : list (Image * Q)) (inp_img : Image)
    (thr : Q) (m : TemplateMatch) : Prop :=
  valid m = true ->
  is_Some (position m)
  /\ (thr < score m)%Q
  /\ score_evaluated cands inp_img (score m).

(** A match with its position mapped through [f]. *)
Definition with_position (f : Z * Z -> Z * Z) (m : TemplateMatch)
  : TemplateMatch :=
  {| name := name m; score := score m;
     position := f <$> position m; valid := valid m |}.

Definition on_match (f : TemplateMatch -> TemplateMatch)
    (r : outcome TemplateMatch) : outcome TemplateMatch :=
  match r with
  | Ok m => Ok (f m)
  | Raise e => Raise e
  end.

(** The centre of candidate [c] at its best anchor, in the coordinates
    of the uncropped image: anchor, plus half the template's width and
    height, plus the ROI origin. *)
Definition centre (nm : bool) (inp_img : Image) (origin : Z * Z)
    (c : Image * Q) : Z * Z :=
  let max_pos := snd (minMaxLoc (matchTemplate (resize inp_img c.2) c.1)) in
  let p := (max_pos.1 + Z.quot (snd (shape c.1)) 2 + origin.1,
            max_pos.2 + Z.quot (fst (shape c.1)) 2 + origin.2) in
  if nm then convert_screen_to_monitor p else p.

(** The integer ROI origin in force. *)
Definition roi_corner (roi : option (Z * Z * Z * Z)) (inp_img : Image) : Z * Z :=
  let '(rx0, ry0, _, _) := roi_or_full roi inp_img in (rx0, ry0).


(** [lc] with another [ref_points] list. *)
Definition with_points (pts : list (Z * Z)) (lc : Locals) : Locals :=
  {| rx := rx lc; ry := ry lc; rw := rw lc; rh := rh lc;
     scores := scores lc; ref_points := pts;
     template_match := template_match lc |}.

(** [ptsT] holds, at every index whose score is not the initial 0, the
    monitor coordinates of the point [lc] holds there. *)
Definition normalized_points (ptsT : list (Z * Z)) (lc : Locals) : Prop :=
  length ptsT = length (ref_points lc)
  /\ forall i s pT pF,
       scores lc !! i = Some s ->
       ptsT !! i = Some pT ->
       ref_points lc !! i = Some pF ->
       pT = convert_screen_to_monitor pF \/ s = 0%Q.


(** ** Where exact arithmetic and doubles agree

    Lines 89-99 compute in doubles. An integer of magnitude at most 2^53
    converts to a double without rounding, and sums of such integers
    within that magnitude, products by 1.0 and by 0.5 are exact. The
    theorems that state a position carry these bounds. *)

Definition double_exact (z : Z) : Prop := Z.abs z <= 2 ^ 53.

(** The four scalars of the ROI in force are exactly representable. *)
Definition roi_exact (roi : option (Z * Z * Z * Z)) (inp_img : Image) : Prop :=
  let '(rx0, ry0, rw0, rh0) := roi_or_full roi inp_img in
  double_exact rx0 /\ double_exact ry0 /\ double_exact rw0 /\ double_exact rh0.

(** Every integer met while computing the centre of candidate [c] is
    exactly representable: the template's size, the anchor plus the half
    size, and that sum plus the ROI origin. *)
Definition centre_exact (inp_img : Image) (origin : Z * Z) (c : Image * Q)
  : Prop :=
  let max_pos := snd (minMaxLoc (matchTemplate (resize inp_img c.2) c.1)) in
  double_exact (snd (shape c.1)) /\ double_exact (fst (shape c.1))
  /\ double_exact (max_pos.1 + Z.quot (snd (shape c.1)) 2)
  /\ double_exact (max_pos.2 + Z.quot (fst (shape c.1)) 2)
  /\ double_exact (max_pos.1 + Z.quot (snd (shape c.1)) 2 + origin.1)
  /\ double_exact (max_pos.2 + Z.quot (fst (shape c.1)) 2 + origin.2).

(** One relative rounding error of a double operation, 2^-53. *)
Definition double_eps : Q := 1 # 9007199254740992.

(** The call ended by timeout: an invalid match was returned. *)
Definition timed_out (r : outcome TemplateMatch) : bool :=
  match r with
  | Ok m => negb (valid m)
  | Raise _ => false
  end.

(** The loading gate of line 152 is open on [img]. *)
Definition gate_open (cfg : Config) (ref : list string) (img : Image) : Prop :=
  is_loading_black_roi cfg img = false \/ "LOADING"%string ∈ ref.

(** ** Construction *)

Context `{AS : Assets Image}.

(** The key of a file: extension stripped, upper-cased; none for a file
    that is not a [.png]. *)
Definition key_of_file (file_name : string) : option string :=
  if py_endswith file_name ".png"
  then Some (py_upper (py_drop_last4 file_name))
  else None.

(** Lines 34-38: one turn of the loop over [pathes]. *)
Definition add_template (templates : gmap string (Image * Q))
    (file_path : string) : gmap string (Image * Q) :=
  let file_name := basename file_path in
  if py_endswith file_name ".png" then
    let key := py_upper (py_drop_last4 file_name) in
    <[key := (load_template file_path 1%Q, 1%Q)]> templates
  else templates.

(** [TemplateFinder.__init__]; [cfg] is [Config()], the two lists are
    what [list_files_in_folder] returned for the NPC and the template
    folder. *)
Definition __init__ (cfg : Config) (npc_files template_files : list string)
  : TemplateFinder :=
  let pathes := npc_files ++ template_files in
  {| _config := cfg;
     _scale_factor := 1%Q;
     last_res := None;
     _templates := fold_left add_template pathes ∅ |}.

(** The last of [pathes] whose file has key [key]. *)
Definition last_file_for (key : string) (pathes : list string) : option string :=
  last (filter (fun p => key_of_file (basename p) = Some key) pathes).

End Finder.

Arguments TemplateFinder : clear implicits.
Arguments Heap : clear implicits.
Arguments Ref : clear implicits.
Arguments Locals : clear implicits.
Arguments World : clear implicits.

(** ** A stub kernel

    The collaborators replaced by stubs, as a test bench would: an image
    is its dimensions, the score and anchor a correlation against it
    (as a template) yields, whether nothing can be found on it (as a
    frame), and the average intensity of its left strip. *)

Module Stub.

Record Img : Type := mkImg {
  rows : Z;
  cols : Z;
  peak : Q;
  peak_at : Z * Z;
  blank : bool;
  left_avg : Q
}.

#[global] Instance stub_cv2 : Cv2 Img (Q * (Z * Z)) := {
  shape img := (rows img, cols img);
  crop img _ _ w h :=
    {| rows := h; cols := w; peak := peak img; peak_at := peak_at img;
       blank := blank img; left_avg := left_avg img |};
  resize img s :=
    {| rows := py_int (inject_Z (rows img) * s);
       cols := py_int (inject_Z (cols img) * s);
       peak := peak img; peak_at := peak_at img;
       blank := blank img; left_avg := left_avg img |};
  matchTemplate img template :=
    (if blank img then (-1)%Q else peak template, peak_at template);
  minMaxLoc res := res;
  average_left img _ := left_avg img;
  convert_screen_to_monitor p := p
}.

(** A template of 4 rows and 6 columns scoring [s], anchored at (3, 5). *)
Definition tpl (s : Q) : Img :=
  {| rows := 4; cols := 6; peak := s; peak_at := (3, 5);
     blank := false; left_avg := 0 |}.

(** A 600 x 800 frame; [dark] blackens its left strip. *)
Definition frame (is_blank dark : bool) : Img :=
  {| rows := 600; cols := 800; peak := 0; peak_at := (0, 0);
     blank := is_blank; left_avg := if dark then 0 else 40 |}.

Definition config : Config :=
  {| template_threshold := 68 # 100;
     loading_left_black := (0, 0, 20, 600);
     info_screenshots := false |}.

(** A finder over the given store, as [__init__] leaves it otherwise. *)
Definition finder (store : gmap string (Img * Q))
  : TemplateFinder Img (Q * (Z * Z)) :=
  {| _config := config; _scale_factor := 1; last_res := None;
     _templates := store |}.

Definition heap (store : gmap string (Img * Q)) (roi : option (Z * Z * Z * Z))
  : Heap Img (Q * (Z * Z)) :=
  {| self_obj := finder store; roi_obj := roi |}.

(** Scores [0.4, 0.9, 0.9] at scale 1.0. *)
Definition store3 : gmap string (Img * Q) :=
  <["A" := (tpl (4 # 10), 1%Q)]>
    (<["B" := (tpl (9 # 10), 1%Q)]>
       (<["C" := (tpl (9 # 10), 1%Q)]> ∅)).

(** One template scoring -0.2. *)
Definition store_neg : gmap string (Img * Q) :=
  <["A" := (tpl (-1 # 5), 1%Q)]> ∅.

(** Two templates scoring -0.2 each. *)
Definition store_tie_neg : gmap string (Img * Q) :=
  <["A" := (tpl (-1 # 5), 1%Q)]> (<["B" := (tpl (-1 # 5), 1%Q)]> ∅).


(** [posixpath.basename]: what follows the last slash. *)
Fixpoint has_slash (s : string) : bool :=
  match s with
  | EmptyString => false
  | String c t => Ascii.eqb c (Ascii.ascii_of_nat 47) || has_slash t
  end.

Fixpoint posix_basename (s : string) : string :=
  match s with
  | EmptyString => EmptyString
  | String c t =>
      if has_slash t then posix_basename t
      else if Ascii.eqb c (Ascii.ascii_of_nat 47) then t else s
  end.

(** The stub loader: the score of a template is the length of its path,
    in hundredths. *)
#[global] Instance stub_assets : Assets Img := {
  basename := posix_basename;
  load_template file_path _ := tpl (Z.of_nat (String.length file_path) # 100)
}.

Definition npc_files : list string :=
  ["npc/akara.png"; "npc/readme.txt"; "npc/Cain.PNG"].

Definition template_files : list string :=
  ["templates/loading.png"; "templates/akara.png"; "templates/.png"].

(** A heap around the finder [__init__] builds from the two folders. *)
Definition loaded_heap (roi : option (Z * Z * Z * Z)) : Heap Img (Q * (Z * Z)) :=
  {| self_obj := __init__ config npc_files template_files; roi_obj := roi |}.

(** A configuration that asks for diagnostic screenshots. *)
Definition config_ss : Config :=
  {| template_threshold := 68 # 100;
     loading_left_black := (0, 0, 20, 600);
     info_screenshots := true |}.

Definition heap_ss (store : gmap string (Img * Q)) : Heap Img (Q * (Z * Z)) :=
  {| self_obj := {| _config := config_ss; _scale_factor := 1;
                    last_res := None; _templates := store |};
     roi_obj := None |}.

(** A world whose first [n] frames are blank, the later ones not. *)
Definition world_after (n : nat) : World Img :=
  {| frames := fun i => if (i <? n)%nat then frame true false
                        else frame false false;
     clock := fun i => inject_Z (Z.of_nat i);
     grabs := O; clock_reads := O; written := [] |}.

(** A world showing the same frame forever, the clock advancing by one
    second per reading. *)
Definition world (f : Img) : World Img :=
  {| frames := fun _ => f; clock := fun n => inject_Z (Z.of_nat n);
     grabs := O; clock_reads := O; written := [] |}.

End Stub.

(** * Properties *)

Section FinderFacts.

Context {Image ScoreField : Type} `{CV : Cv2 Image ScoreField}.

Implicit Types (self : TemplateFinder Image ScoreField) (h : Heap Image ScoreField).
Implicit Types (lc : Locals) (img : Image) (w : World Image).

Lemma Qltb_lt (a b : Q) : Qltb a b = true <-> (a < b)%Q.
Proof.
  unfold Qltb. rewrite negb_true_iff, <- not_true_iff_false, Qle_bool_iff.
  split; [apply Qnot_le_lt | apply Qlt_not_le].
Qed.

Lemma Qltb_ge (a b : Q) : Qltb a b = false <-> (b <= a)%Q.
Proof.
  unfold Qltb. rewrite negb_false_iff. apply Qle_bool_iff.
Qed.

(** ** What [search] may write *)

Lemma same_but_last_res_refl self : same_but_last_res self self.
Proof. by repeat split. Qed.

Lemma same_but_last_res_trans self1 self2 self3 :
  same_but_last_res self1 self2 -> same_but_last_res self2 self3 ->
  same_but_last_res self1 self3.
Proof. intros (? & ? & ?) (? & ? & ?). repeat split; congruence. Qed.

Lemma same_but_last_res_set res self :
  same_but_last_res self (set_last_res res self).
Proof. by repeat split. Qed.

Lemma search_loop_frame names inp_img thr nm bm cands :
  forall count lc self,
    same_but_last_res self
      (search_loop names inp_img thr nm bm cands count lc self).2.
Proof.
  induction cands as [|[template scale] rest IH]; intros count lc self; simpl.
  { apply same_but_last_res_refl. }
  destruct (_ && _); [|apply IH].
  destruct (minMaxLoc _) as [max_val max_pos].
  pose proof (same_but_last_res_set
                (matchTemplate (resize inp_img scale) template) self) as Hset.
  destruct (Qltb thr max_val);
    [|eapply same_but_last_res_trans; [exact Hset | apply IH]].
  destruct (Qeq_bool scale 0); [exact Hset|].
  destruct bm; [|exact Hset].
  do 2 (destruct (_ <? _)%nat; [|exact Hset]).
  eapply same_but_last_res_trans; [exact Hset | apply IH].
Qed.

(** The heap after [search]: the caller's [roi] object as it was, the
    finder as it was up to [last_res]. *)
Lemma search_frame ref img thr nm bm h :
  roi_obj (search ref img thr nm bm h).2 = roi_obj h
  /\ same_but_last_res (self_obj h) (self_obj (search ref img thr nm bm h).2).
Proof.
  unfold search.
  destruct (roi_or_full _ _) as [[[rx0 ry0] rw0] rh0].
  destruct (dispatch _ _ _) as [[[cands names] bm']|e]; simpl.
  2:{ split; [done | apply same_but_last_res_refl]. }
  match goal with
  | |- context [search_loop ?a ?b ?c ?d ?e ?f ?g ?i ?j] =>
      pose proof (search_loop_frame a b c d e f g i j) as Hfr;
      destruct (search_loop a b c d e f g i j) as [[ex lc] self']
  end.
  simpl in Hfr. destruct ex; simpl; by split.
Qed.

(** ** Python's [max] and [index] *)

Lemma py_index_Some (v : Q) (l : list Q) (i : nat) :
  py_index v l = Some i ->
  exists x, l !! i = Some x /\ (x == v)%Q
            /\ forall j y, (j < i)%nat -> l !! j = Some y -> ~ (y == v)%Q.
Proof.
  revert i. induction l as [|a l IH]; intros i; simpl; [done|].
  destruct (Qeq_bool a v) eqn:Ha.
  - intros [= <-]. exists a. split; [done|]. split; [by apply Qeq_bool_iff|].
    intros j y Hj. lia.
  - destruct (py_index v l) as [i'|]; simpl; [|done].
    intros [= <-]. destruct (IH i' eq_refl) as (x & Hx & Hxv & Hfirst).
    exists x. split; [done|]. split; [done|].
    intros [|j] y Hj; simpl.
    + intros [= ->] Hy. apply Qeq_bool_iff in Hy. congruence.
    + apply Hfirst. lia.
Qed.

Lemma py_max_from_spec (l : list Q) :
  forall cur,
    (py_max_from cur l = cur \/ py_max_from cur l ∈ l)
    /\ (cur <= py_max_from cur l)%Q
    /\ forall x, x ∈ l -> (x <= py_max_from cur l)%Q.
Proof.
  induction l as [|a l IH]; intros cur; simpl.
  { split; [by left|]. split; [apply Qle_refl|].
    intros x Hx. by apply elem_of_nil in Hx. }
  destruct (IH (if Qltb cur a then a else cur)) as (Hmem & Hle & Hall).
  destruct (Qltb cur a) eqn:Hlt.
  - apply Qltb_lt in Hlt. split; [|split].
    + right. destruct Hmem as [-> | Hmem]; [by left | by right].
    + eapply Qle_trans; [apply Qlt_le_weak, Hlt | exact Hle].
    + intros x [-> | Hx]%elem_of_cons; [exact Hle | by apply Hall].
  - apply Qltb_ge in Hlt. split; [|split].
    + destruct Hmem as [-> | Hmem]; [by left | right; by right].
    + exact Hle.
    + intros x [-> | Hx]%elem_of_cons; [|by apply Hall].
      eapply Qle_trans; [exact Hlt | exact Hle].
Qed.

Lemma py_max_spec (l : list Q) (mx : Q) :
  py_max l = Some mx ->
  mx ∈ l /\ forall x, x ∈ l -> (x <= mx)%Q.
Proof.
  destruct l as [|a l]; simpl; [done|]. intros [= <-].
  destruct (py_max_from_spec l a) as (Hmem & Hle & Hall). split.
  - destruct Hmem as [-> | Hmem]; [by left | by right].
  - intros x [-> | Hx]%elem_of_cons; [exact Hle | by apply Hall].
Qed.

Lemma py_index_is_Some (v : Q) (l : list Q) :
  v ∈ l -> is_Some (py_index v l).
Proof.
  induction l as [|a l IH]; [by intros ?%elem_of_nil|].
  intros Hin. simpl. destruct (Qeq_bool a v) eqn:Ha; [by eexists|].
  apply elem_of_cons in Hin as [-> | Hin].
  - rewrite (proj2 (Qeq_bool_iff a a)) in Ha; [done | apply Qeq_refl].
  - destruct (IH Hin) as [i ->]. by eexists.
Qed.

(** ** The loop invariant: what [scores] holds *)

(** After one more iteration [template_match] is the fresh default. *)
Ltac finish_iteration IH :=
  let Htm := fresh "Htm" in
  destruct IH as [? Htm]; split; [done | right; by destruct Htm as [-> | ->]].

Lemma search_loop_inv names inp_img thr nm bm all cands :
  forall count lc self,
    (forall c, c ∈ cands -> c ∈ all) ->
    Forall (recorded all inp_img thr) (scores lc) ->
    match search_loop names inp_img thr nm bm cands count lc self with
    | (Returned m, _, _) => well_formed_match all inp_img thr m
    | (Completed, lc', _) =>
        Forall (recorded all inp_img thr) (scores lc')
        /\ (template_match lc' = template_match lc
            \/ template_match lc' = Some TemplateMatch_default)
    | (Raised _, _, _) => True
    end.
Proof.
  induction cands as [|[template scale] rest IH]; intros count lc self Hin Hrec;
    simpl.
  { split; [done | by left]. }
  assert (Hrest : forall c, c ∈ rest -> c ∈ all).
  { intros c Hc. apply Hin. by right. }
  set (lc1 := {| rx := _; template_match := Some TemplateMatch_default |}).
  destruct (_ && _) eqn:Hguard.
  2:{ specialize (IH (S count) lc1 self Hrest Hrec).
      destruct (search_loop _ _ _ _ _ rest _ lc1 _) as [[[m| |e] lc'] self'];
        [done | | done].
      by finish_iteration IH. }
  destruct (minMaxLoc _) as [max_val max_pos] eqn:Hmm.
  assert (Hev : score_evaluated all inp_img max_val).
  { exists (template, scale). split; [apply Hin; by left|].
    split; [exact Hguard|]. unfold kernel_score; simpl. by rewrite Hmm. }
  destruct (Qltb thr max_val) eqn:Hthr.
  2:{ match goal with
      | |- context [search_loop _ _ _ _ _ rest _ lc1 ?s] =>
          specialize (IH (S count) lc1 s Hrest Hrec);
          destruct (search_loop names inp_img thr nm bm rest (S count) lc1 s)
            as [[[m| |e] lc'] self']
      end; [done | | done].
      by finish_iteration IH. }
  apply Qltb_lt in Hthr.
  destruct (Qeq_bool scale 0); [done|].
  destruct bm.
  2:{ intros _. simpl. split; [by eexists|]. by split. }
  do 2 (destruct (_ <? _)%nat; [|done]).
  match goal with
  | |- context [search_loop _ _ _ _ _ rest _ ?l ?s] =>
      specialize (IH (S count) l s Hrest);
      destruct (search_loop names inp_img thr nm true rest (S count) l s)
        as [[[m| |e] lc'] self']
  end; simpl in IH.
  - apply IH. apply Forall_insert; [done|]. right. by split.
  - assert (Hrec' : Forall (recorded all inp_img thr)
                      (<[count := max_val]> (scores lc))).
    { apply Forall_insert; [done|]. right. by split. }
    specialize (IH Hrec'). by finish_iteration IH.
  - done.
Qed.

Lemma select_best_inv names all inp_img thr lc m :
  Forall (recorded all inp_img thr) (scores lc) ->
  (template_match lc = None \/ template_match lc = Some TemplateMatch_default) ->
  select_best names lc = Ok m ->
  well_formed_match all inp_img thr m.
Proof.
  intros Hrec Htm. unfold select_best.
  destruct (py_max (scores lc)) as [mx|]; [|done].
  destruct (Qltb 0 mx) eqn:Hpos.
  - apply Qltb_lt in Hpos.
    destruct (py_index mx (scores lc)) as [idx|] eqn:Hidx; [|done].
    apply py_index_Some in Hidx as (x & Hx & Hxm & _).
    destruct (ref_points lc !! idx) as [p|]; [|done].
    destruct (template_match lc) as [m0|]; [|done].
    rewrite Hx. intros [= <-] _. simpl.
    split; [by eexists|].
    rewrite Forall_lookup in Hrec. destruct (Hrec idx x Hx) as [->|[? ?]].
    + rewrite <- Hxm in Hpos. by apply Qlt_irrefl in Hpos.
    + done.
  - destruct Htm as [->| ->]; [done|]. by intros [= <-].
Qed.

(** ** Best-match mode: the loop as a map over the candidates *)

Lemma search_loop_best names inp_img thr nm cands :
  forall count lc self pre ppre,
    (forall c, c ∈ cands -> exceeds inp_img thr c = true -> ~ (c.2 == 0)%Q) ->
    length pre = count -> length ppre = count ->
    scores lc = pre ++ replicate (length cands) 0%Q ->
    ref_points lc = ppre ++ replicate (length cands) (0, 0) ->
    exists lc' self',
      search_loop names inp_img thr nm true cands count lc self
      = (Completed, lc', self')
      /\ scores lc' = pre ++ (score_entry inp_img thr <$> cands)
      /\ ref_points lc'
         = ppre ++ point_entries nm inp_img thr (rx lc) (ry lc) cands
      /\ template_match lc'
         = match cands with
           | [] => template_match lc
           | _ => Some TemplateMatch_default
           end.
Proof.
  induction cands as [|[template scale] rest IH];
    intros count lc self pre ppre Hscale Hpre Hppre Hsc Hpt.
  { exists lc, self. simpl in *. by rewrite Hsc, Hpt. }
  assert (Hscale' : forall c, c ∈ rest -> exceeds inp_img thr c = true ->
                              ~ (c.2 == 0)%Q).
  { intros c Hc. apply Hscale. by right. }
  pose proof (Hscale (template, scale) ltac:(by left)) as Hhere.
  cbn [search_loop point_entries]. rewrite fmap_cons.
  unfold score_entry at 1. unfold exceeds, guard, kernel_score in Hhere |- *.
  cbn [fst snd] in Hhere |- *.
  set (lc1 := {| rx := _; template_match := Some TemplateMatch_default |}).
  cbn [length replicate] in Hsc, Hpt.
  destruct ((fst (shape template) <? fst (shape (resize inp_img scale)))
            && (snd (shape template) <? snd (shape (resize inp_img scale))))
    eqn:Hguard; cbn [andb] in Hhere |- *.
  2:{ destruct (IH (S count) lc1 self (pre ++ [0%Q]) (ppre ++ [(0, 0)]))
        as (lc' & self' & -> & Hsc' & Hpt' & Htm'); try done.
      - rewrite length_app. simpl. lia.
      - rewrite length_app. simpl. lia.
      - simpl. by rewrite Hsc, <- app_assoc.
      - simpl. by rewrite Hpt, <- app_assoc.
      - exists lc', self'. rewrite Hsc', Hpt', <- !app_assoc.
        repeat split; try done. rewrite Htm'. by destruct rest. }
  destruct (minMaxLoc _) as [max_val max_pos] eqn:Hmm. cbn [fst snd] in *.
  destruct (Qltb thr max_val) eqn:Hthr.
  2:{ match goal with
      | |- context [search_loop _ _ _ _ _ rest _ lc1 ?s] =>
          destruct (IH (S count) lc1 s (pre ++ [0%Q]) (ppre ++ [(0, 0)]))
            as (lc' & self' & -> & Hsc' & Hpt' & Htm'); try done
      end.
      - rewrite length_app. simpl. lia.
      - rewrite length_app. simpl. lia.
      - simpl. by rewrite Hsc, <- app_assoc.
      - simpl. by rewrite Hpt, <- app_assoc.
      - exists lc', self'. rewrite Hsc', Hpt', <- !app_assoc.
        repeat split; try done. rewrite Htm'. by destruct rest. }
  destruct (Qeq_bool scale 0) eqn:Hzero.
  { apply Qeq_bool_iff in Hzero. by destruct Hhere. }
  cbn [scores ref_points lc1].
  assert ((count <? length (scores lc))%nat = true) as ->.
  { apply Nat.ltb_lt. rewrite Hsc, length_app. simpl. lia. }
  assert ((count <? length (ref_points lc))%nat = true) as ->.
  { apply Nat.ltb_lt. rewrite Hpt, length_app. simpl. lia. }
  match goal with
  | |- context [search_loop _ _ _ _ _ rest _ ?l ?s] =>
      destruct (IH (S count) l s (pre ++ [max_val])
                  (ppre ++ [if nm
                            then convert_screen_to_monitor
                                   (ref_point_of template scale
                                      (rx lc * scale) (ry lc * scale) max_pos)
                            else ref_point_of template scale
                                   (rx lc * scale) (ry lc * scale) max_pos]))
        as (lc' & self' & -> & Hsc' & Hpt' & Htm'); try done
  end.
  - rewrite length_app. simpl. lia.
  - rewrite length_app. simpl. lia.
  - cbn [scores]. rewrite Hsc, insert_app_r_alt by lia.
    rewrite Hpre, Nat.sub_diag. simpl. by rewrite <- app_assoc.
  - cbn [ref_points]. rewrite Hpt, insert_app_r_alt by lia.
    rewrite Hppre, Nat.sub_diag. simpl. by rewrite <- app_assoc.
  - exists lc', self'. rewrite Hsc', Hpt', <- !app_assoc.
        repeat split; try done. rewrite Htm'. by destruct rest.
Qed.

Lemma length_point_entries nm inp_img thr cands :
  forall rx0 ry0,
    length (point_entries nm inp_img thr rx0 ry0 cands) = length cands.
Proof.
  induction cands as [|c rest IH]; intros rx0 ry0; simpl; [done|].
  by rewrite IH.
Qed.

Lemma lookup_all_length (store : gmap string (Image * Q)) (ks : list string) :
  forall cands, lookup_all store ks = Ok cands -> length cands = length ks.
Proof.
  induction ks as [|k ks IH]; intros cands; simpl.
  - by intros [= <-].
  - destruct (store !! k); [|done].
    destruct (lookup_all store ks) as [es|]; [|done].
    intros [= <-]. simpl. by rewrite (IH es).
Qed.

(** ** No candidate above the threshold *)

Lemma search_loop_none_exceeds names inp_img thr nm bm cands :
  forall count lc self,
    (forall c, c ∈ cands -> exceeds inp_img thr c = false) ->
    exists lc' self',
      search_loop names inp_img thr nm bm cands count lc self
      = (Completed, lc', self')
      /\ scores lc' = scores lc
      /\ template_match lc'
         = match cands with
           | [] => template_match lc
           | _ => Some TemplateMatch_default
           end.
Proof.
  induction cands as [|[template scale] rest IH]; intros count lc self Hnone.
  { by exists lc, self. }
  assert (Hrest : forall c, c ∈ rest -> exceeds inp_img thr c = false).
  { intros c Hc. apply Hnone. by right. }
  pose proof (Hnone (template, scale) ltac:(by left)) as Hhere.
  unfold exceeds, guard, kernel_score in Hhere. cbn [fst snd] in Hhere.
  cbn [search_loop].
  set (lc1 := {| rx := _; template_match := Some TemplateMatch_default |}).
  destruct ((fst (shape template) <? fst (shape (resize inp_img scale)))
            && (snd (shape template) <? snd (shape (resize inp_img scale))));
    cbn [andb] in Hhere.
  - destruct (minMaxLoc _) as [max_val max_pos]. cbn [fst] in Hhere.
    rewrite Hhere.
    match goal with
    | |- context [search_loop _ _ _ _ _ rest _ lc1 ?s] =>
        destruct (IH (S count) lc1 s Hrest) as (lc' & self' & -> & Hsc & Htm)
    end.
    exists lc', self'. repeat split; [done|]. rewrite Htm. by destruct rest.
  - destruct (IH (S count) lc1 self Hrest) as (lc' & self' & -> & Hsc & Htm).
    exists lc', self'. repeat split; [done|]. rewrite Htm. by destruct rest.
Qed.

Lemma py_max_from_zeros (n : nat) : py_max_from 0 (replicate n 0%Q) = 0%Q.
Proof. induction n as [|n IH]; [done|]. simpl. exact IH. Qed.


(** ** First-match mode: the first candidate above the threshold *)

Lemma search_loop_first names inp_img thr nm c post pre :
  forall count lc self,
    (forall c', c' ∈ pre -> exceeds inp_img thr c' = false) ->
    exceeds inp_img thr c = true ->
    ~ (c.2 == 0)%Q ->
    (search_loop names inp_img thr nm false (pre ++ c :: post) count lc self).1.1
    = Returned {| name := name_at names (count + length pre);
                  score := kernel_score inp_img c;
                  position :=
                    Some (found_point nm inp_img
                            (scaled (rx lc) (pre ++ [c]))
                            (scaled (ry lc) (pre ++ [c])) c);
                  valid := true |}.
Proof.
  induction pre as [|[template scale] pre IH];
    intros count lc self Hpre Hc Hscale.
  - destruct c as [template scale].
    unfold exceeds, guard, kernel_score, found_point in *.
    cbn [app search_loop fst snd scaled fold_left length] in *.
    apply andb_true_iff in Hc as [-> Hthr].
    destruct (minMaxLoc _) as [max_val max_pos]. cbn [fst snd] in *.
    rewrite Hthr.
    destruct (Qeq_bool scale 0) eqn:Hz;
      [by apply Qeq_bool_iff in Hz|].
    cbn [fst rx ry]. by rewrite Nat.add_0_r.
  - pose proof (Hpre (template, scale) ltac:(by left)) as Hhere.
    assert (Hpre' : forall c', c' ∈ pre -> exceeds inp_img thr c' = false).
    { intros c' Hc'. apply Hpre. by right. }
    unfold exceeds, guard, kernel_score in Hhere. cbn [fst snd] in Hhere.
    cbn [app search_loop length scaled fold_left].
    set (lc1 := {| rx := _; template_match := Some TemplateMatch_default |}).
    replace (count + S (length pre))%nat with (S count + length pre)%nat by lia.
    destruct ((fst (shape template) <? fst (shape (resize inp_img scale)))
              && (snd (shape template) <? snd (shape (resize inp_img scale))));
      cbn [andb] in Hhere.
    + destruct (minMaxLoc _) as [max_val max_pos]. cbn [fst] in Hhere.
      rewrite Hhere. by rewrite (IH (S count) lc1).
    + by rewrite (IH (S count) lc1).
Qed.

Lemma Qmult_1_r_eq (x : Q) : (x * 1)%Q = x.
Proof.
  destruct x as [a b]. unfold Qmult. simpl.
  by rewrite Z.mul_1_r, Pos.mul_1_r.
Qed.

(** After candidates of scale 1.0 only, the origin is scaled by the
    candidate's own factor alone. *)
Lemma scaled_unit (x : Q) (pre : list (Image * Q)) (c : Image * Q) :
  (forall c', c' ∈ pre -> c'.2 = 1%Q) ->
  scaled x (pre ++ [c]) = (x * c.2)%Q.
Proof.
  revert x. induction pre as [|c0 pre IH]; intros x Hunit; [done|].
  unfold scaled in *. cbn [app fold_left].
  rewrite (Hunit c0) by (by left). rewrite Qmult_1_r_eq.
  apply IH. intros c' Hc'. apply Hunit. by right.
Qed.

(** ** Which exceptions [search] can raise *)


Lemma dispatch_shape self ref bm :
  match dispatch self ref bm with
  | Raise e => exists k, e = KeyError k /\ _templates self !! k = None
  | Ok (cands, _, bm') =>
      (bm' = true -> length cands = ref_len ref)
      /\ (cands = [] -> ref_len ref = O)
  end.
Proof.
  destruct ref as [k|ks|buf]; simpl.
  - destruct (_ !! k) eqn:Hk; [done | by exists k].
  - destruct (lookup_all _ ks) as [es|e] eqn:Hl.
    + pose proof (lookup_all_length _ _ _ Hl) as Hlen. split; [done|].
      intros ->. by rewrite <- Hlen.
    + revert e Hl. induction ks as [|a ks IH]; intros e; simpl; [done|].
      destruct (_ !! a) eqn:Ha; [|intros [= <-]; by exists a].
      destruct (lookup_all _ ks) as [es|e']; [done|].
      intros [= <-]. by apply IH.
  - done.
Qed.


(** ** The outcome of [search] does not read [last_res] *)

Lemma search_loop_self_irrelevant names inp_img thr nm bm cands :
  forall count lc self1 self2,
    (search_loop names inp_img thr nm bm cands count lc self1).1
    = (search_loop names inp_img thr nm bm cands count lc self2).1.
Proof.
  induction cands as [|[template scale] rest IH]; intros count lc self1 self2;
    simpl; [done|].
  destruct (_ && _); [|apply IH].
  destruct (minMaxLoc _) as [max_val max_pos].
  destruct (Qltb thr max_val); [|apply IH].
  destruct (Qeq_bool scale 0); [done|].
  destruct bm; [|done].
  do 2 (destruct (_ <? _)%nat; [|done]).
  apply IH.
Qed.

Lemma dispatch_same self self' ref bm :
  same_but_last_res self self' ->
  dispatch self' ref bm = dispatch self ref bm.
Proof.
  intros (_ & _ & Htpl). unfold dispatch. by rewrite Htpl.
Qed.

Lemma search_outcome_same ref img thr nm bm h h' :
  roi_obj h' = roi_obj h ->
  same_but_last_res (self_obj h) (self_obj h') ->
  (search ref img thr nm bm h').1 = (search ref img thr nm bm h).1.
Proof.
  intros Hroi Hsame. unfold search.
  rewrite Hroi, (dispatch_same _ _ _ _ Hsame).
  assert (resolve_threshold (self_obj h') thr
          = resolve_threshold (self_obj h) thr) as ->.
  { destruct Hsame as (Hcfg & _). unfold resolve_threshold. by rewrite Hcfg. }
  destruct (roi_or_full _ _) as [[[rx0 ry0] rw0] rh0].
  destruct (dispatch _ _ _) as [[[cands names] bm']|e]; [|done].
  match goal with
  | |- context [search_loop ?a ?b ?c ?d ?e ?f ?g ?i (self_obj h')] =>
      pose proof (search_loop_self_irrelevant a b c d e f g i
                    (self_obj h') (self_obj h)) as Heq;
      destruct (search_loop a b c d e f g i (self_obj h')) as [[ex' lc'] s'];
      destruct (search_loop a b c d e f g i (self_obj h)) as [[ex lc] s0]
  end.
  simpl in Heq. injection Heq as -> ->. by destruct ex.
Qed.

(** ** The poll loop *)

(** One turn of [while 1]. *)
Lemma search_and_wait_loop_S fuel ref time_out thr bm take_ss start h w :
  search_and_wait_loop (S fuel) ref time_out thr bm take_ss start h w
  = let '(img, w1) := grab w in
    match search (KeyList ref) img (Some thr) false bm h with
    | (Raise e, h1) => Some (Raise e, h1, w1)
    | (Ok tm, h1) =>
        if negb (is_loading_black_roi (_config (self_obj h1)) img)
           || bool_decide ("LOADING"%string ∈ ref)
        then
          if valid tm then Some (Ok tm, h1, w1)
          else
            match time_out with
            | None =>
                search_and_wait_loop fuel ref time_out thr bm take_ss start h1 w1
            | Some t =>
                let '(now, w2) := time_time w1 in
                if Qltb t (now - start) then
                  if info_screenshots (_config (self_obj h1)) && take_ss
                  then Some (Ok tm, h1, imwrite img w2)
                  else Some (Ok tm, h1, w2)
                else
                  search_and_wait_loop fuel ref time_out thr bm take_ss start
                    h1 w2
            end
        else search_and_wait_loop fuel ref time_out thr bm take_ss start h1 w1
    end.
Proof. reflexivity. Qed.

Lemma heap_like_refl h : heap_like h h.
Proof. split; [done | apply same_but_last_res_refl]. Qed.

Lemma heap_like_search ref img thr nm bm h0 h :
  heap_like h0 h -> heap_like h0 (search ref img thr nm bm h).2.
Proof.
  intros [Hroi Hsame].
  destruct (search_frame ref img thr nm bm h) as [Hroi' Hsame'].
  split; [congruence | by eapply same_but_last_res_trans].
Qed.

Lemma heap_like_config h0 h : heap_like h0 h ->
  _config (self_obj h) = _config (self_obj h0).
Proof. by intros (_ & ? & _). Qed.

(** While every frame is dark and ["LOADING"] is not asked for, no
    amount of iterations reaches a [return]. *)
Lemma loop_suppressed_forever ref time_out thr bm take_ss start h0 fuel :
  forall h w,
    (forall n, is_loading_black_roi (_config (self_obj h0)) (frames w n) = true) ->
    "LOADING"%string ∉ ref ->
    (forall n, exists tm,
        (search (KeyList ref) (frames w n) (Some thr) false bm h0).1 = Ok tm) ->
    heap_like h0 h ->
    search_and_wait_loop fuel ref time_out thr bm take_ss start h w = None.
Proof.
  induction fuel as [|fuel IH]; intros h w Hdark Hkey Hok Hlike; [done|].
  rewrite search_and_wait_loop_S. cbn [grab].
  destruct (Hok (grabs w)) as (tm & Htm).
  pose proof (heap_like_search (KeyList ref) (frames w (grabs w)) (Some thr)
                false bm h0 h Hlike) as Hlike1.
  destruct Hlike as [Hroi Hsame].
  rewrite <- (search_outcome_same _ _ _ _ _ _ _ Hroi Hsame) in Htm.
  destruct (search _ _ _ _ _ h) as [r h1]. simpl in Htm, Hlike1. subst r.
  rewrite (heap_like_config _ _ Hlike1), Hdark. simpl.
  rewrite bool_decide_eq_false_2 by done.
  by apply IH.
Qed.

(** ** Dispatch *)

Lemma dispatch_candidates self ref bm cands names bm' :
  dispatch self ref bm = Ok (cands, names, bm') ->
  candidates self ref = cands.
Proof.
  unfold candidates. destruct ref as [k|ks|buf]; simpl.
  - destruct (_ !! k); [|done]. by intros [= <- _ _].
  - destruct (lookup_all _ ks); [|done]. by intros [= <- _ _].
  - by intros [= <- _ _].
Qed.

Lemma get_template_unknown_key self k :
  _templates self !! k = None -> get_template self k = Raise (KeyError k).
Proof. unfold get_template. by intros ->. Qed.

Lemma lookup_all_missing (store : gmap string (Image * Q)) (ks : list string) :
  (exists k, k ∈ ks /\ store !! k = None) ->
  exists k, store !! k = None /\ lookup_all store ks = Raise (KeyError k).
Proof.
  induction ks as [|a ks IH]; intros (k & Hk & Hnone).
  - by apply elem_of_nil in Hk.
  - simpl. destruct (store !! a) as [entry|] eqn:Ha.
    + apply elem_of_cons in Hk as [->|Hk]; [congruence|].
      destruct IH as (k' & Hk' & ->); [by exists k|]. by exists k'.
    + by exists a.
Qed.

(** C1 (as amended). In an iteration in which [search] returns a match:
    if the match is valid and the loading check does not fire or
    ["LOADING"] is among the keys, the loop returns that match at once,
    whatever the timeout, the start time and the clock (which is not
    even read); if the loading check fires and ["LOADING"] is not among
    the keys, the iteration takes neither terminal, whatever the match
    and the timeout: the loop goes on with the next iteration. *)
Theorem found_returns_unless_suppressed fuel ref time_out thr bm take_ss
    start h w tm :
  (search (KeyList ref) (grab w).1 (Some thr) false bm h).1 = Ok tm ->
  (valid tm = true ->
   is_loading_black_roi (_config (self_obj h)) (grab w).1 = false
   \/ "LOADING"%string ∈ ref ->
   search_and_wait_loop (S fuel) ref time_out thr bm take_ss start h w
   = Some (Ok tm,
           (search (KeyList ref) (grab w).1 (Some thr) false bm h).2,
           (grab w).2))
  /\ (is_loading_black_roi (_config (self_obj h)) (grab w).1 = true ->
      "LOADING"%string ∉ ref ->
      search_and_wait_loop (S fuel) ref time_out thr bm take_ss start h w
      = search_and_wait_loop fuel ref time_out thr bm take_ss start
          (search (KeyList ref) (grab w).1 (Some thr) false bm h).2
          (grab w).2).
Proof.
  intros Htm. rewrite search_and_wait_loop_S.
  pose proof (heap_like_search (KeyList ref) (grab w).1 (Some thr) false bm
                h h (heap_like_refl h)) as Hlike.
  cbn [grab fst snd] in *.
  destruct (search _ _ _ _ _ h) as [r h1]. simpl in Htm, Hlike. subst r.
  rewrite (heap_like_config _ _ Hlike). split.
  - intros Hvalid Hgate. rewrite Hvalid.
    destruct Hgate as [-> | Hin]; [done|].
    rewrite (bool_decide_eq_true_2 _ Hin). by rewrite orb_true_r.
  - intros Hdark Hkey. rewrite Hdark.
    by rewrite (bool_decide_eq_false_2 _ Hkey).
Qed.

(** C2. Calling [search] with the empty list as reference does not return
    an invalid match with score -1.0: for every image, threshold, ROI and
    flags it raises the [ValueError] of [max] over the empty [scores]. *)
Theorem search_empty_list_raises img thr nm bm h :
  search (KeyList []) img thr nm bm h = (Raise ValueError, h).
Proof.
  unfold search. destruct (roi_or_full _ _) as [[[rx0 ry0] rw0] rh0]. simpl.
  unfold with_self. by destruct h.
Qed.

(** C5. A match returned by [search] with [valid] set has a position,
    a score strictly above the threshold in force, and that score is the
    kernel's maximum for one of the evaluated candidates; with a threshold
    of at least -1.0 it differs from the default -1.0. *)
Theorem search_valid_is_well_formed ref img thr nm bm h m :
  (search ref img thr nm bm h).1 = Ok m ->
  valid m = true ->
  is_Some (position m)
  /\ (resolve_threshold (self_obj h) thr < score m)%Q
  /\ score_evaluated (candidates (self_obj h) ref) (region (roi_obj h) img)
       (score m)
  /\ ((-1 <= resolve_threshold (self_obj h) thr)%Q -> ~ (score m == -1)%Q).
Proof.
  intros Hsearch Hvalid.
  cut (well_formed_match (candidates (self_obj h) ref) (region (roi_obj h) img)
         (resolve_threshold (self_obj h) thr) m).
  { intros Hwf. destruct (Hwf Hvalid) as (Hpos & Hthr & Hev).
    repeat split; try done.
    intros Hlow Heq. rewrite Heq in Hthr.
    by apply Qlt_not_le in Hthr. }
  revert Hsearch. unfold search, region.
  destruct (roi_or_full _ _) as [[[rx0 ry0] rw0] rh0].
  destruct (dispatch _ _ _) as [[[cands names] bm']|e] eqn:Hd; [|done].
  apply dispatch_candidates in Hd as ->.
  match goal with
  | |- context [search_loop ?a ?b ?c ?d ?e ?f ?g ?i ?j] =>
      pose proof (search_loop_inv a b c d e cands f g i j) as Hinv;
      destruct (search_loop a b c d e f g i j) as [[ex lc] self']
  end.
  simpl in Hinv.
  assert (Hinit : Forall (recorded cands (crop img rx0 ry0 rw0 rh0)
                            (resolve_threshold (self_obj h) thr))
                    (replicate (ref_len ref) 0%Q)).
  { apply Forall_replicate. by left. }
  specialize (Hinv (fun c Hc => Hc) Hinit).
  destruct ex as [m'| |e]; simpl.
  - by intros [= <-].
  - intros Hsel. destruct Hinv as [Hrec Htm].
    eapply select_best_inv; [exact Hrec | | exact Hsel].
    destruct Htm as [-> | ->]; [by left | by right].
  - done.
Qed.

(** C8. A reference that is, or contains, a key absent from the template
    store makes [search] raise [KeyError] for such a key; no match is
    returned and the heap is left as it was. *)
Theorem search_unknown_key_raises ref img thr nm bm h :
  mentions_unregistered (_templates (self_obj h)) ref ->
  exists k,
    _templates (self_obj h) !! k = None
    /\ search ref img thr nm bm h = (Raise (KeyError k), h).
Proof.
  intros Hmiss. unfold search.
  destruct (roi_or_full _ _) as [[[rx0 ry0] rw0] rh0].
  destruct ref as [k|ks|buf]; simpl in *.
  - exists k. by rewrite Hmiss.
  - destruct (lookup_all_missing _ _ Hmiss) as (k & Hk & ->). by exists k.
  - done.
Qed.

(** C10. [search] leaves the template store (buffers and scale factors)
    and the caller's ROI list as they were; of the finder's fields only
    [last_res] can differ afterwards. *)
Theorem search_mutates_only_last_res ref img thr nm bm h :
  _templates (self_obj (search ref img thr nm bm h).2) = _templates (self_obj h)
  /\ roi_obj (search ref img thr nm bm h).2 = roi_obj h
  /\ _config (self_obj (search ref img thr nm bm h).2) = _config (self_obj h)
  /\ _scale_factor (self_obj (search ref img thr nm bm h).2)
     = _scale_factor (self_obj h).
Proof.
  destruct (search_frame ref img thr nm bm h) as (Hroi & Hcfg & Hsf & Htpl).
  by repeat split.
Qed.

End FinderFacts.

(** * Further properties of [search] *)

Section SearchFacts.

Context {Image ScoreField : Type} `{CV : Cv2 Image ScoreField}.

Implicit Types (self : TemplateFinder Image ScoreField) (h : Heap Image ScoreField).
Implicit Types (lc : Locals) (img : Image).

Lemma with_self_same h : with_self (self_obj h) h = h.
Proof. by destruct h. Qed.

Lemma py_max_zeros (n : nat) (mx : Q) :
  py_max (replicate n 0%Q) = Some mx -> mx = 0%Q.
Proof.
  destruct n as [|n]; simpl; [done|]. intros [= <-]. apply py_max_from_zeros.
Qed.

Lemma lookup_all_registered (store : gmap string (Image * Q)) (ks : list string) :
  forall es, lookup_all store ks = Ok es ->
             forall k, k ∈ ks -> is_Some (store !! k).
Proof.
  induction ks as [|a ks IH]; intros es Hes k Hk; [by apply elem_of_nil in Hk|].
  simpl in Hes. destruct (store !! a) as [entry|] eqn:Ha; [|done].
  destruct (lookup_all store ks) as [es'|]; [|done].
  apply elem_of_cons in Hk as [-> | Hk]; [by rewrite Ha | by eapply IH].
Qed.

(** How the loop can end: what an early return carries, and what a
    completed loop leaves in the locals. *)
Lemma search_loop_exit names inp_img thr nm bm cands :
  forall count lc self,
    match search_loop names inp_img thr nm bm cands count lc self with
    | (Returned m, _, _) =>
        valid m = true
        /\ exists i, (count <= i < count + length cands)%nat
                     /\ name m = name_at names i
    | (Completed, lc', _) =>
        (template_match lc' = template_match lc
         \/ template_match lc' = Some TemplateMatch_default)
        /\ length (scores lc') = length (scores lc)
        /\ (bm = false -> scores lc' = scores lc)
    | (Raised _, _, _) => True
    end.
Proof.
  induction cands as [|[template scale] rest IH]; intros count lc self;
    cbn [search_loop].
  { repeat split; by left. }
  set (lc1 := {| rx := _; template_match := Some TemplateMatch_default |}).
  assert (Hnext : forall lc2 self0,
            length (scores lc2) = length (scores lc) ->
            (bm = false -> scores lc2 = scores lc) ->
            template_match lc2 = Some TemplateMatch_default ->
            match search_loop names inp_img thr nm bm rest (S count) lc2 self0 with
            | (Returned m, _, _) =>
                valid m = true
                /\ exists i, (count <= i < count + S (length rest))%nat
                             /\ name m = name_at names i
            | (Completed, lc', _) =>
                (template_match lc' = template_match lc
                 \/ template_match lc' = Some TemplateMatch_default)
                /\ length (scores lc') = length (scores lc)
                /\ (bm = false -> scores lc' = scores lc)
            | (Raised _, _, _) => True
            end).
  { intros lc2 self0 Hlen Hsc Htm. specialize (IH (S count) lc2 self0).
    destruct (search_loop _ _ _ _ _ rest _ lc2 self0) as [[[m| |e] lc'] self'];
      [| |done].
    - destruct IH as (Hv & i & Hi & Hn). split; [done|].
      exists i. split; [lia | done].
    - destruct IH as (Htm' & Hlen' & Hsc'). split; [|split].
      + right. destruct Htm' as [-> | ->]; done.
      + congruence.
      + intros Hbm. rewrite (Hsc' Hbm). by apply Hsc. }
  cbn [length].
  destruct (_ && _); [|by apply Hnext].
  destruct (minMaxLoc _) as [max_val max_pos].
  destruct (Qltb thr max_val); [|by apply Hnext].
  destruct (Qeq_bool scale 0); [done|].
  destruct bm.
  - do 2 (destruct (_ <? _)%nat; [|done]).
    apply Hnext; [subst lc1; cbn [scores]; by rewrite length_insert | done | done].
  - split; [done|]. exists count. split; [lia | done].
Qed.

(** A result that is not valid is the untouched default
    [TemplateMatch()]: no name, score -1.0, no position. *)
Theorem search_invalid_is_default ref img thr nm bm h m :
  (search ref img thr nm bm h).1 = Ok m ->
  valid m = false ->
  m = TemplateMatch_default.
Proof.
  unfold search. destruct (roi_or_full _ _) as [[[rx0 ry0] rw0] rh0].
  destruct (dispatch _ _ _) as [[[cands names] bm']|e]; [|done].
  match goal with
  | |- context [search_loop ?a1 ?a2 ?a3 ?a4 ?a5 ?a6 ?a7 ?a8 ?a9] =>
      pose proof (search_loop_exit a1 a2 a3 a4 a5 a6 a7 a8 a9) as Hloop;
      destruct (search_loop a1 a2 a3 a4 a5 a6 a7 a8 a9) as [[ex lc] self']
  end.
  destruct ex as [m'| |e]; cbn [fst]; [| |done].
  - destruct Hloop as [Hv _]. intros [= <-]. congruence.
  - destruct Hloop as (Htm & _). cbn [template_match] in Htm.
    unfold select_best.
    destruct (py_max (scores lc)) as [mx|]; [|done].
    destruct (Qltb 0 mx).
    + destruct (py_index mx (scores lc)) as [idx|]; [|done].
      destruct (ref_points lc !! idx); [|done].
      destruct (template_match lc); [|done].
      destruct (scores lc !! idx); [|done].
      by intros [= <-].
    + destruct Htm as [-> | ->]; [done|]. by intros [= <-].
Qed.

(** The name of a valid result: the key itself for a single key, one of
    the listed (and registered) keys for a list, none for a raw image. *)
Theorem search_valid_name ref img thr nm bm h m :
  (search ref img thr nm bm h).1 = Ok m ->
  valid m = true ->
  match ref with
  | Key k => name m = Some k
  | KeyList ks =>
      exists k, k ∈ ks /\ is_Some (_templates (self_obj h) !! k)
                /\ name m = Some k
  | RawImage _ => name m = None
  end.
Proof.
  unfold search. destruct (roi_or_full _ _) as [[[rx0 ry0] rw0] rh0].
  destruct (dispatch _ _ _) as [[[cands names] bm']|e] eqn:Hd; [|done].
  match goal with
  | |- context [search_loop ?a1 ?a2 ?a3 ?a4 ?a5 ?a6 ?a7 ?a8 ?a9] =>
      pose proof (search_loop_exit a1 a2 a3 a4 a5 a6 a7 a8 a9) as Hloop;
      destruct (search_loop a1 a2 a3 a4 a5 a6 a7 a8 a9) as [[ex lc] self']
  end.
  cbn [scores] in Hloop. rewrite length_replicate in Hloop.
  assert (Hname : forall i, (i < ref_len ref)%nat ->
            (bm' = false -> False) \/ (i < length cands)%nat ->
            name m = name_at names i \/ (name m = None /\ name_at names i = None) ->
            match ref with
            | Key k => name m = Some k
            | KeyList ks =>
                exists k, k ∈ ks /\ is_Some (_templates (self_obj h) !! k)
                          /\ name m = Some k
            | RawImage _ => name m = None
            end).
  { intros i Hi Hi' Hn. destruct ref as [k|ks|buf]; simpl in Hd.
    - destruct (_ !! k); [|done]. injection Hd as <- <- <-.
      destruct Hi' as [Hf | Hi']; [by destruct Hf|]. simpl in Hi'.
      assert (i = O) as -> by lia. simpl in Hn. by destruct Hn as [? | [? ?]].
    - destruct (lookup_all _ ks) as [es|] eqn:Hl; [|done].
      injection Hd as <- <- <-. simpl in Hi, Hn.
      destruct (lookup_lt_is_Some_2 ks i Hi) as [k Hk]. rewrite Hk in Hn.
      exists k. split; [by eapply list_elem_of_lookup_2|]. split.
      + eapply lookup_all_registered; [exact Hl|].
        by eapply list_elem_of_lookup_2.
      + by destruct Hn as [? | [? ?]].
    - injection Hd as <- <- <-. simpl in Hn. by destruct Hn as [? | [? ?]]. }
  pose proof (dispatch_shape (self_obj h) ref bm) as Hshape. rewrite Hd in Hshape.
  destruct Hshape as [Hlen Hnil].
  destruct ex as [m'| |e]; cbn [fst]; [| |done].
  - destruct Hloop as (_ & i & Hi & Hn). intros [= <-] _.
    destruct bm' eqn:Hbm.
    + apply (Hname i); [rewrite <- Hlen by done; lia | right; lia | by left].
    + destruct ref as [k|ks|buf]; simpl in Hd.
      * destruct (_ !! k); [|done]. injection Hd as <- <-.
        simpl in Hi. assert (i = O) as -> by lia. by simpl in Hn.
      * destruct (lookup_all _ ks) as [es|] eqn:Hl; [|done].
        injection Hd as <- <- _.
        pose proof (lookup_all_length _ _ _ Hl) as Hlen'.
        assert (Hi' : (i < length ks)%nat) by lia.
        destruct (lookup_lt_is_Some_2 ks i Hi') as [k Hk].
        simpl in Hn. rewrite Hk in Hn.
        exists k. split; [by eapply list_elem_of_lookup_2|]. split; [|done].
        eapply lookup_all_registered; [exact Hl|].
        by eapply list_elem_of_lookup_2.
      * injection Hd as <- <-. by simpl in Hn.
  - destruct Hloop as (Htm & Hlc & Hsc). unfold select_best.
    destruct (py_max (scores lc)) as [mx|] eqn:Hmax; [|done].
    destruct (Qltb 0 mx) eqn:Hpos.
    2:{ destruct (template_match lc) as [m0|]; [|done].
        destruct Htm as [Htm | Htm]; [done|]. injection Htm as ->.
        by intros [= <-]. }
    assert (Hbm : bm' = true).
    { destruct bm'; [done|]. rewrite (Hsc eq_refl) in Hmax.
      apply py_max_zeros in Hmax as ->. done. }
    destruct (py_index mx (scores lc)) as [idx|] eqn:Hidx; [|done].
    apply py_index_Some in Hidx as (x & Hx & _).
    apply lookup_lt_Some in Hx as Hlt.
    destruct (ref_points lc !! idx); [|done].
    destruct (template_match lc) as [m0|]; [|done].
    rewrite Hx. intros [= <-] _. cbn [name].
    apply (Hname idx); [lia | rewrite Hlen by done; right; lia |].
    destruct (name_at names idx); [by left|].
    destruct Htm as [Htm | Htm]; [done|]. injection Htm as ->. by right.
Qed.

(** ** Monitor normalisation *)

Lemma search_loop_normalize names inp_img thr bm cands :
  forall count lc ptsT self,
    normalized_points ptsT lc ->
    match search_loop names inp_img thr true bm cands count
            (with_points ptsT lc) self,
          search_loop names inp_img thr false bm cands count lc self with
    | (Returned mT, _, sT), (Returned mF, _, sF) =>
        mT = with_position convert_screen_to_monitor mF /\ sT = sF
    | (Completed, lT, sT), (Completed, lF, sF) =>
        (exists pts, lT = with_points pts lF /\ normalized_points pts lF)
        /\ sT = sF
    | (Raised eT, _, sT), (Raised eF, _, sF) => eT = eF /\ sT = sF
    | _, _ => False
    end.
Proof.
  induction cands as [|[template scale] rest IH]; intros count lc ptsT self Hrel;
    cbn [search_loop].
  { split; [by exists ptsT | done]. }
  cbn [with_points rx ry rw rh scores ref_points template_match].
  set (lc1 := {| rx := (rx lc * scale)%Q; ref_points := ref_points lc;
                 template_match := Some TemplateMatch_default |}).
  assert (Hrel1 : normalized_points ptsT lc1) by exact Hrel.
  change {| rx := (rx lc * scale)%Q; ry := (ry lc * scale)%Q;
            rw := (rw lc * scale)%Q; rh := (rh lc * scale)%Q;
            scores := scores lc; ref_points := ptsT;
            template_match := Some TemplateMatch_default |}
    with (with_points ptsT lc1).
  destruct (_ && _); [|by apply IH].
  destruct (minMaxLoc _) as [max_val max_pos].
  destruct (Qltb thr max_val); [|by apply IH].
  destruct (Qeq_bool scale 0); [done|].
  destruct bm; [|done].
  cbn [with_points rx ry rw rh scores ref_points template_match lc1].
  destruct Hrel as [Hlen Hpts]. rewrite Hlen.
  destruct (count <? length (scores lc))%nat; [|done].
  destruct (count <? length (ref_points lc))%nat eqn:Hcount; [|done].
  apply Nat.ltb_lt in Hcount.
  match goal with
  | |- context [search_loop _ _ _ false _ _ _ ?lF _] =>
      match goal with
      | |- context [search_loop _ _ _ true _ _ _ ?lT _] =>
          change lT with (with_points (ref_points lT) lF);
          apply IH
      end
  end.
  unfold normalized_points. cbn [ref_points scores].
  split; [by rewrite !length_insert|].
  intros i s pT pF Hs HT HF.
  destruct (decide (i = count)) as [-> | Hne].
  - rewrite list_lookup_insert_eq in HT by lia.
    rewrite list_lookup_insert_eq in HF by lia.
    left. congruence.
  - rewrite list_lookup_insert_ne in Hs by done.
    rewrite list_lookup_insert_ne in HT by done.
    rewrite list_lookup_insert_ne in HF by done.
    by eapply Hpts.
Qed.

(** With [normalize_monitor] set, [search] behaves as without it, except
    that the position of the result has gone through
    [convert_screen_to_monitor]; errors and heap are the same. *)
Theorem search_normalize_monitor ref img thr bm h :
  search ref img thr true bm h
  = (on_match (with_position convert_screen_to_monitor)
       (search ref img thr false bm h).1,
     (search ref img thr false bm h).2).
Proof.
  unfold search. destruct (roi_or_full _ _) as [[[rx0 ry0] rw0] rh0].
  destruct (dispatch _ _ _) as [[[cands names] bm']|e]; [|done].
  match goal with
  | |- context [search_loop ?a1 ?a2 ?a3 false ?a5 ?a6 ?a7 ?a8 ?a9] =>
      pose proof (search_loop_normalize a1 a2 a3 a5 a6 a7 a8
                    (replicate (ref_len ref) (0, 0)) a9) as Hloop;
      pose proof (search_loop_exit a1 a2 a3 false a5 a6 a7 a8 a9) as Hex;
      destruct (search_loop a1 a2 a3 false a5 a6 a7 a8 a9)
        as [[exF lF] sF]
  end.
  cbv beta iota delta [with_points] in Hloop.
  cbn [rx ry rw rh scores ref_points template_match] in Hloop.
  match type of Hloop with
  | _ -> match ?t with _ => _ end => destruct t as [[exT lT] sT]
  end.
  assert (Hinit : normalized_points (replicate (ref_len ref) (0, 0))
                    {| rx := inject_Z rx0; ry := inject_Z ry0;
                       rw := inject_Z rw0; rh := inject_Z rh0;
                       scores := replicate (ref_len ref) 0%Q;
                       ref_points := replicate (ref_len ref) (0, 0);
                       template_match := None |}).
  { split; [done|]. cbn [scores ref_points]. intros i s pT pF Hs _ _.
    apply lookup_replicate in Hs as [-> _]. by right. }
  specialize (Hloop Hinit).
  destruct exT as [mT| |eT], exF as [mF| |eF]; try done; cbn [fst snd on_match].
  - by destruct Hloop as [-> ->].
  - destruct Hloop as [(pts & -> & Hlen & Hpts) ->]. f_equal.
    unfold select_best.
    cbn [with_points scores ref_points template_match].
    destruct (py_max (scores lF)) as [mx|]; [|done].
    destruct (Qltb 0 mx) eqn:Hpos.
    2:{ destruct (template_match lF) as [m0|] eqn:Htm; [|done].
        cbn [on_match]. f_equal.
        destruct Hex as ([Hm0 | Hm0] & _); [done|].
        by injection Hm0 as ->. }
    destruct (py_index mx (scores lF)) as [idx|] eqn:Hidx; [|done].
    apply py_index_Some in Hidx as (x & Hx & Hxm & _).
    destruct (ref_points lF !! idx) as [pF|] eqn:HF.
    2:{ apply lookup_ge_None in HF. rewrite <- Hlen in HF.
        apply lookup_ge_None in HF. by rewrite HF. }
    destruct (lookup_lt_is_Some_2 pts idx) as [pT HT].
    { rewrite Hlen. by eapply lookup_lt_Some. }
    rewrite HT. destruct (template_match lF) as [m0|]; [|done].
    rewrite Hx. cbn [on_match with_position name score position valid fmap].
    destruct (Hpts idx x pT pF Hx HT HF) as [-> | ->]; [done|].
    apply Qltb_lt in Hpos. rewrite <- Hxm in Hpos. by apply Qlt_irrefl in Hpos.
  - by destruct Hloop as [-> ->].
Qed.

(** ** A reference of length 0 *)


(** ** A single key and the one-element list *)

(** A single non-empty key is searched exactly as the list holding that
    key alone in first-match mode, whatever [best_match] says. *)
Theorem search_key_as_singleton_list (k : string) img thr nm bm h :
  k <> ""%string ->
  search (Key k) img thr nm bm h = search (KeyList [k]) img thr nm false h.
Proof.
  intros Hk. unfold search.
  destruct (roi_or_full _ _) as [[[rx0 ry0] rw0] rh0].
  cbn [dispatch lookup_all ref_len].
  destruct (_ !! k) as [[template scale]|]; [|done].
  destruct k as [|a k]; [done|]. cbn [String.length length search_loop].
  destruct (_ && _).
  2:{ unfold select_best. cbn [scores template_match replicate py_max].
      by rewrite py_max_from_zeros. }
  destruct (minMaxLoc _) as [max_val max_pos].
  destruct (Qltb _ max_val).
  2:{ unfold select_best. cbn [scores template_match replicate py_max].
      by rewrite py_max_from_zeros. }
  by destruct (Qeq_bool scale 0).
Qed.

(** ** The size guard and [last_res] *)

Lemma search_loop_no_guard names inp_img thr nm bm cands :
  forall count lc self,
    (forall c, c ∈ cands -> guard inp_img c = false) ->
    (search_loop names inp_img thr nm bm cands count lc self).2 = self.
Proof.
  induction cands as [|[template scale] rest IH]; intros count lc self Hg;
    cbn [search_loop]; [done|].
  pose proof (Hg (template, scale) ltac:(by left)) as Hhere.
  unfold guard in Hhere. cbn [fst snd] in Hhere. rewrite Hhere.
  apply IH. intros c Hc. apply Hg. by right.
Qed.

(** When no candidate is strictly smaller than the search region in both
    dimensions, nothing is correlated: the heap, [last_res] included, is
    as before, and a returned match can only be the default. *)
Theorem search_guard_skips_all ref img thr nm bm h :
  (forall c, c ∈ candidates (self_obj h) ref ->
             guard (region (roi_obj h) img) c = false) ->
  (search ref img thr nm bm h).2 = h
  /\ forall m, (search ref img thr nm bm h).1 = Ok m -> m = TemplateMatch_default.
Proof.
  unfold search, region. destruct (roi_or_full _ _) as [[[rx0 ry0] rw0] rh0].
  intros Hg.
  destruct (dispatch (self_obj h) ref bm) as [[[cands names] bm']|e] eqn:Hd;
    [|done].
  rewrite (dispatch_candidates _ _ _ _ _ _ Hd) in Hg.
  assert (Hnone : forall c, c ∈ cands ->
            exceeds (crop img rx0 ry0 rw0 rh0)
              (resolve_threshold (self_obj h) thr) c = false).
  { intros c Hc. unfold exceeds. by rewrite (Hg c Hc). }
  match goal with
  | |- context [search_loop ?a1 ?a2 ?a3 ?a4 ?a5 ?a6 ?a7 ?a8 ?a9] =>
      pose proof (search_loop_no_guard a1 a2 a3 a4 a5 a6 a7 a8 a9 Hg) as Hself;
      destruct (search_loop_none_exceeds a1 a2 a3 a4 a5 a6 a7 a8 a9 Hnone)
        as (lc & self' & Hloop & Hsc & Htm)
  end.
  rewrite Hloop in Hself |- *. cbn [fst snd] in *. subst self'.
  split; [apply with_self_same|].
  intros m. unfold select_best. rewrite Hsc.
  destruct (py_max _) as [mx|] eqn:Hmax; [|done].
  apply py_max_zeros in Hmax as ->. cbn [Qltb Qle_bool negb].
  rewrite Htm. destruct cands; [done | by intros [= <-]].
Qed.



(** ** Searching again *)

Lemma search_loop_last_res names inp_img thr nm bm cands :
  forall count lc self1 self2,
    ((search_loop names inp_img thr nm bm cands count lc self1).2 = self1
     /\ (search_loop names inp_img thr nm bm cands count lc self2).2 = self2)
    \/ exists res,
        (search_loop names inp_img thr nm bm cands count lc self1).2
        = set_last_res res self1
        /\ (search_loop names inp_img thr nm bm cands count lc self2).2
           = set_last_res res self2.
Proof.
  induction cands as [|[template scale] rest IH]; intros count lc self1 self2;
    cbn [search_loop]; [by left|].
  set (lc1 := {| rx := _; template_match := Some TemplateMatch_default |}).
  assert (Hset : forall lc2,
            exists res,
              (search_loop names inp_img thr nm bm rest (S count) lc2
                 (set_last_res (matchTemplate (resize inp_img scale) template)
                    self1)).2
              = set_last_res res self1
              /\ (search_loop names inp_img thr nm bm rest (S count) lc2
                    (set_last_res (matchTemplate (resize inp_img scale) template)
                       self2)).2
                 = set_last_res res self2).
  { intros lc2.
    destruct (IH (S count) lc2
                (set_last_res (matchTemplate (resize inp_img scale) template)
                   self1)
                (set_last_res (matchTemplate (resize inp_img scale) template)
                   self2)) as [[-> ->] | (res & -> & ->)]; by eexists. }
  destruct (_ && _); [|apply IH].
  destruct (minMaxLoc _) as [max_val max_pos].
  destruct (Qltb thr max_val); [|right; apply Hset].
  destruct (Qeq_bool scale 0); [right; by eexists|].
  destruct bm; [|right; by eexists].
  do 2 (destruct (_ <? _)%nat; [|right; by eexists]).
  right. apply Hset.
Qed.

(** Searching again with the same arguments, on the heap the first
    search left, gives the same outcome and leaves the heap as it is:
    the retained score field never feeds back into a result. *)
Theorem search_idempotent ref img thr nm bm h :
  search ref img thr nm bm (search ref img thr nm bm h).2
  = search ref img thr nm bm h.
Proof.
  destruct (search_frame ref img thr nm bm h) as [Hroi Hsame].
  pose proof (search_outcome_same ref img thr nm bm h _ Hroi Hsame) as Hout.
  apply injective_projections; [exact Hout|].
  clear Hout. revert Hroi Hsame. unfold search.
  destruct (roi_or_full (roi_obj h) img) as [[[rx0 ry0] rw0] rh0] eqn:Hroi0.
  destruct (dispatch (self_obj h) ref bm) as [[[cands names] bm']|e] eqn:Hd.
  2:{ cbn [snd]. intros _ _. by rewrite Hroi0, Hd. }
  match goal with
  | |- context [search_loop ?a1 ?a2 ?a3 ?a4 ?a5 ?a6 ?a7 ?a8 (self_obj h)] =>
      set (loop := fun self => search_loop a1 a2 a3 a4 a5 a6 a7 a8 self);
      change (search_loop a1 a2 a3 a4 a5 a6 a7 a8 (self_obj h))
        with (loop (self_obj h))
  end.
  set (h1 := (let '(ex, _, self') := loop (self_obj h) in
              match ex with
              | Returned m => (Ok m, with_self self' h)
              | Completed => (select_best names _, with_self self' h)
              | Raised e => (Raise e, with_self self' h)
              end).2).
  assert (Hh1 : h1 = with_self (loop (self_obj h)).2 h).
  { subst h1. by destruct (loop (self_obj h)) as [[[m| |e] lc] self']. }
  intros Hroi Hsame. rewrite Hroi, Hroi0, (dispatch_same _ _ _ _ Hsame), Hd.
  assert (Hthr : resolve_threshold (self_obj h1) thr
                 = resolve_threshold (self_obj h) thr).
  { destruct Hsame as (Hcfg & _). unfold resolve_threshold. by rewrite Hcfg. }
  rewrite Hthr. fold (loop (self_obj h1)).
  assert (Hself : (loop (self_obj h1)).2 = self_obj h1).
  { rewrite Hh1. cbn [with_self self_obj]. subst loop. cbv beta.
    match goal with
    | |- context [search_loop ?a1 ?a2 ?a3 ?a4 ?a5 ?a6 ?a7 ?a8 (self_obj h)] =>
        destruct (search_loop_last_res a1 a2 a3 a4 a5 a6 a7 a8 (self_obj h)
                    (search_loop a1 a2 a3 a4 a5 a6 a7 a8 (self_obj h)).2)
          as [[H1 H2] | (res & H1 & H2)]
    end.
    - done.
    - rewrite H2, H1. done. }
  transitivity (with_self (loop (self_obj h1)).2 h1).
  { by destruct (loop (self_obj h1)) as [[[m| |e] lc] self']. }
  rewrite Hself. apply with_self_same.
Qed.

(** ** Positions over a store of scale 1.0 *)

Lemma py_int_half (w : Z) : py_int (inject_Z w * (1 # 2)) = Z.quot w 2.
Proof. unfold py_int. simpl. by rewrite Z.mul_1_r. Qed.

Lemma py_int_unscale_unit (n m : Z) :
  py_int ((inject_Z n + inject_Z m) * (1 / 1)) = n + m.
Proof.
  unfold py_int. simpl. rewrite !Z.mul_1_r. apply Z.quot_1_r.
Qed.

Lemma ref_point_unit template (ox oy : Z) (max_pos : Z * Z) :
  ref_point_of template 1 (inject_Z ox) (inject_Z oy) max_pos
  = (max_pos.1 + Z.quot (snd (shape template)) 2 + ox,
     max_pos.2 + Z.quot (fst (shape template)) 2 + oy).
Proof.
  unfold ref_point_of. by rewrite !py_int_half, !py_int_unscale_unit.
Qed.

Lemma lookup_all_entries (store : gmap string (Image * Q)) (ks : list string) :
  forall es, lookup_all store ks = Ok es ->
             forall e, e ∈ es -> exists k, store !! k = Some e.
Proof.
  induction ks as [|a ks IH]; intros es; simpl.
  - intros [= <-] e He. by apply elem_of_nil in He.
  - destruct (store !! a) as [entry|] eqn:Ha; [|done].
    destruct (lookup_all store ks) as [es'|]; [|done].
    intros [= <-] e [-> | He]%elem_of_cons; [by exists a | by eapply IH].
Qed.

Lemma candidates_scales self ref :
  map_Forall (fun _ e => e.2 = 1%Q) (_templates self) ->
  forall c, c ∈ candidates self ref -> c.2 = 1%Q.
Proof.
  intros Hstore c. unfold candidates.
  destruct ref as [k|ks|buf]; simpl.
  - destruct (_ !! k) as [entry|] eqn:Hk; [|by intros ?%elem_of_nil].
    intros ->%list_elem_of_singleton. by apply (Hstore k).
  - destruct (lookup_all _ ks) as [es|] eqn:Hl; [|by intros ?%elem_of_nil].
    intros Hc. destruct (lookup_all_entries _ _ _ Hl _ Hc) as [k Hk].
    by apply (Hstore k).
  - by intros ->%list_elem_of_singleton.
Qed.



Lemma found_point_unit nm inp_img (ox oy : Z) (c : Image * Q) :
  c.2 = 1%Q ->
  found_point nm inp_img (inject_Z ox) (inject_Z oy) c
  = centre nm inp_img (ox, oy) c.
Proof.
  destruct c as [template scale]. cbn [snd]. intros ->.
  unfold found_point, centre. cbn [fst snd]. by rewrite ref_point_unit.
Qed.

Lemma point_entries_unit nm inp_img thr (ox oy : Z) cands :
  (forall c, c ∈ cands -> c.2 = 1%Q) ->
  forall i c,
    cands !! i = Some c ->
    exceeds inp_img thr c = true ->
    point_entries nm inp_img thr (inject_Z ox) (inject_Z oy) cands !! i
    = Some (centre nm inp_img (ox, oy) c).
Proof.
  induction cands as [|c0 rest IH]; intros Hunit i c Hi Hex; [done|].
  cbn [point_entries].
  rewrite (Hunit c0) by (by left). rewrite !Qmult_1_r_eq.
  destruct i as [|i]; cbn [lookup list_lookup] in Hi |- *.
  - injection Hi as ->. rewrite Hex. f_equal.
    rewrite <- (found_point_unit nm inp_img ox oy c) by (apply Hunit; by left).
    unfold found_point. by rewrite (Hunit c) by (by left).
  - apply IH; [|done|done]. intros c' Hc'. apply Hunit. by right.
Qed.

Lemma search_first_unit ref img thr nm h pre c post :
  candidates (self_obj h) ref = pre ++ c :: post ->
  (forall c', c' ∈ pre -> c'.2 = 1%Q) ->
  c.2 = 1%Q ->
  (forall c', c' ∈ pre ->
              exceeds (region (roi_obj h) img)
                (resolve_threshold (self_obj h) thr) c' = false) ->
  exceeds (region (roi_obj h) img) (resolve_threshold (self_obj h) thr) c
  = true ->
  (search ref img thr nm false h).1
  = Ok {| name := name_at (ref_names ref) (length pre);
          score := kernel_score (region (roi_obj h) img) c;
          position :=
            Some (centre nm (region (roi_obj h) img)
                    (roi_corner (roi_obj h) img) c);
          valid := true |}.
Proof.
  intros Hcands Hunit Hc1.
  revert Hcands. unfold search, region, roi_corner, candidates.
  destruct (roi_or_full _ _) as [[[rx0 ry0] rw0] rh0].
  intros Hcands Hpre Hc.
  assert (Hd : dispatch (self_obj h) ref false
               = Ok (pre ++ c :: post, ref_names ref, false)).
  { destruct ref as [k|ks|buf]; simpl in *.
    - destruct (_ !! k); [by rewrite Hcands | by destruct pre].
    - destruct (lookup_all _ ks); [by rewrite Hcands | by destruct pre].
    - by rewrite Hcands. }
  rewrite Hd.
  assert (Hscale : ~ (c.2 == 0)%Q).
  { rewrite Hc1. unfold Qeq. simpl. lia. }
  match goal with
  | |- context [search_loop ?a1 ?a2 ?a3 ?a4 false _ ?a7 ?a8 ?a9] =>
      pose proof (search_loop_first a1 a2 a3 a4 c post pre a7 a8 a9
                    Hpre Hc Hscale) as Hloop;
      destruct (search_loop a1 a2 a3 a4 false (pre ++ c :: post) a7 a8 a9)
        as [[ex lc] self']
  end.
  cbn [fst snd rx ry] in Hloop |- *. rewrite Hloop. cbn [Nat.add].
  rewrite !scaled_unit, Hc1, !Qmult_1_r_eq by done.
  by rewrite found_point_unit.
Qed.


(** First-match mode (always for a single key or a raw image), over a
    store of scale 1.0 with the ROI and the found candidate's integers
    in the range where doubles are exact: [search] returns the first
    candidate, in list order, that passes the guard and scores above the
    threshold, with its name, its score and its centre. *)
Theorem first_match_returns_first_exceeding ref img thr nm h pre c post :
  map_Forall (fun _ e => e.2 = 1%Q) (_templates (self_obj h)) ->
  roi_exact (roi_obj h) img ->
  candidates (self_obj h) ref = pre ++ c :: post ->
  centre_exact (region (roi_obj h) img) (roi_corner (roi_obj h) img) c ->
  (forall c', c' ∈ pre ->
              exceeds (region (roi_obj h) img)
                (resolve_threshold (self_obj h) thr) c' = false) ->
  exceeds (region (roi_obj h) img) (resolve_threshold (self_obj h) thr) c
  = true ->
  (search ref img thr nm false h).1
  = Ok {| name := name_at (ref_names ref) (length pre);
          score := kernel_score (region (roi_obj h) img) c;
          position :=
            Some (centre nm (region (roi_obj h) img)
                    (roi_corner (roi_obj h) img) c);
          valid := true |}.
Proof.
  intros Hstore _ Hcands _.
  pose proof (candidates_scales _ ref Hstore) as Hunit. rewrite Hcands in Hunit.
  apply (search_first_unit ref img thr nm h pre c post Hcands).
  - intros c' Hc'. apply Hunit. apply elem_of_app. by left.
  - apply Hunit. apply elem_of_app. right. by left.
Qed.


(** Best-match mode over registered keys at a threshold of at least 0,
    over a store of scale 1.0 with the ROI and the candidates' integers
    in the range where doubles are exact: as soon as a candidate exceeds
    the threshold, the result is valid and is the first candidate of
    maximal score, with its name, its score and its centre. *)
Theorem best_match_selects_first_maximum ks img thr nm h cands :
  lookup_all (_templates (self_obj h)) ks = Ok cands ->
  map_Forall (fun _ e => e.2 = 1%Q) (_templates (self_obj h)) ->
  roi_exact (roi_obj h) img ->
  (forall c, c ∈ cands ->
             centre_exact (region (roi_obj h) img)
               (roi_corner (roi_obj h) img) c) ->
  (0 <= resolve_threshold (self_obj h) thr)%Q ->
  (exists c, c ∈ cands
             /\ exceeds (region (roi_obj h) img)
                  (resolve_threshold (self_obj h) thr) c = true) ->
  exists m i k c,
    (search (KeyList ks) img thr nm true h).1 = Ok m
    /\ valid m = true
    /\ ks !! i = Some k
    /\ cands !! i = Some c
    /\ exceeds (region (roi_obj h) img)
         (resolve_threshold (self_obj h) thr) c = true
    /\ name m = Some k
    /\ score m = kernel_score (region (roi_obj h) img) c
    /\ position m
       = Some (centre nm (region (roi_obj h) img)
                 (roi_corner (roi_obj h) img) c)
    /\ (forall c', c' ∈ cands -> guard (region (roi_obj h) img) c' = true ->
        (kernel_score (region (roi_obj h) img) c' <= score m)%Q)
    /\ (forall j c', (j < i)%nat -> cands !! j = Some c' ->
        guard (region (roi_obj h) img) c' = true ->
        (kernel_score (region (roi_obj h) img) c' < score m)%Q).
Proof.
  intros Hlook Hstore _ _ Hthr (c0 & Hc0 & Hex0).
  assert (Hunit : forall c, c ∈ cands -> c.2 = 1%Q).
  { intros c Hc. destruct (lookup_all_entries _ _ _ Hlook _ Hc) as [k Hk].
    by apply (Hstore k). }
  assert (Hscale : forall c, c ∈ cands -> ~ (c.2 == 0)%Q).
  { intros c Hc. rewrite (Hunit c Hc). unfold Qeq. simpl. lia. }
  pose proof (lookup_all_length _ _ _ Hlook) as Hlen.
  revert Hex0. unfold search, region, roi_corner.
  set (th := resolve_threshold (self_obj h) thr) in *.
  destruct (roi_or_full _ _) as [[[rx0 ry0] rw0] rh0].
  set (inp := crop img rx0 ry0 rw0 rh0). intros Hex0.
  cbn [dispatch ref_len fst snd]. rewrite Hlook.
  match goal with
  | |- context [search_loop ?a1 ?a2 ?a3 ?a4 ?a5 ?a6 ?a7 ?a8 ?a9] =>
      destruct (search_loop_best a1 a2 a3 a4 a6 a7 a8 a9 [] [])
        as (lc & self' & -> & Hsc & Hpt & Htm);
        [by intros c' Hc' _; apply Hscale | done | done
        | by simpl; rewrite Hlen | by simpl; rewrite Hlen |]
  end.
  cbn [rx ry app] in Hsc, Hpt.
  assert (Htm' : template_match lc = Some TemplateMatch_default).
  { rewrite Htm. destruct cands; [by apply elem_of_nil in Hc0 | done]. }
  clear Htm. cbn [fst snd]. unfold select_best.
  destruct (py_max (scores lc)) as [mx|] eqn:Hmax.
  2:{ rewrite Hsc in Hmax. destruct cands; [by apply elem_of_nil in Hc0 | done]. }
  apply py_max_spec in Hmax as [Hmem Hub].
  assert (Hentry : forall c, c ∈ cands -> (score_entry inp th c <= mx)%Q).
  { intros c Hc. apply Hub. rewrite Hsc. by apply list_elem_of_fmap_2. }
  assert (Hpos : (th < mx)%Q).
  { specialize (Hentry c0 Hc0). unfold score_entry in Hentry.
    rewrite Hex0 in Hentry. apply andb_true_iff in Hex0 as [_ Hlt].
    apply Qltb_lt in Hlt. lra. }
  assert (Qltb 0 mx = true) as -> by (apply Qltb_lt; lra).
  destruct (py_index_is_Some mx (scores lc) Hmem) as [idx Hidx].
  rewrite Hidx. apply py_index_Some in Hidx as (x & Hx & Hxm & Hfirst).
  rewrite Hx, Htm'.
  assert (Hc : exists c, cands !! idx = Some c /\ x = score_entry inp th c).
  { rewrite Hsc, list_lookup_fmap in Hx.
    destruct (cands !! idx) as [c|]; [|done]. exists c. by injection Hx as <-. }
  destruct Hc as (c & Hc & Hxc).
  assert (Hk : is_Some (ks !! idx)).
  { apply lookup_lt_is_Some. rewrite <- Hlen. by eapply lookup_lt_Some. }
  destruct Hk as [k Hk].
  assert (Hexc : exceeds inp th c = true).
  { destruct (exceeds inp th c) eqn:E; [done|].
    unfold score_entry in Hxc. rewrite E in Hxc. subst x. lra. }
  rewrite Hpt, (point_entries_unit nm inp th rx0 ry0 cands Hunit idx c Hc Hexc).
  assert (Hval : x = kernel_score inp c).
  { unfold score_entry in Hxc. by rewrite Hexc in Hxc. }
  assert (Hbelow : forall c', guard inp c' = true ->
                     exceeds inp th c' = false ->
                     (kernel_score inp c' <= th)%Q).
  { intros c' Hg He. unfold exceeds in He. rewrite Hg in He.
    by apply Qltb_ge in He. }
  exists {| name := Some k; score := x;
            position := Some (centre nm inp (rx0, ry0) c); valid := true |},
    idx, k, c.
  cbn [name_at name score position valid]. rewrite Hk.
  repeat split; try done.
  - intros c' Hc' Hg. specialize (Hentry c' Hc'). unfold score_entry in Hentry.
    destruct (exceeds inp th c') eqn:E; [lra|].
    specialize (Hbelow c' Hg E). lra.
  - intros j c' Hj Hc' Hg.
    assert (Hj' : scores lc !! j = Some (score_entry inp th c')).
    { by rewrite Hsc, list_lookup_fmap, Hc'. }
    pose proof (Hfirst j _ Hj Hj') as Hne.
    pose proof (Hentry c' ltac:(by eapply list_elem_of_lookup_2)) as Hle.
    unfold score_entry in Hne, Hle.
    destruct (exceeds inp th c') eqn:E.
    + apply Qle_lteq in Hle as [Hlt | Heq]; [lra | by destruct Hne].
    + specialize (Hbelow c' Hg E). lra.
Qed.

End SearchFacts.

(** * Further properties of [search_and_wait] *)

Section WaitFacts.

Context {Image ScoreField : Type} `{CV : Cv2 Image ScoreField}.

Implicit Types (h : Heap Image ScoreField) (img : Image) (w : World Image).

(** Without a timeout the loop has one way out: a valid match (or an
    exception of [search]). *)
Lemma loop_no_timeout_valid ref thr bm take_ss start fuel :
  forall h w m h' w',
    search_and_wait_loop fuel ref None thr bm take_ss start h w
    = Some (Ok m, h', w') ->
    valid m = true.
Proof.
  induction fuel as [|fuel IH]; intros h w m h' w'; [done|].
  rewrite search_and_wait_loop_S. cbn [grab].
  destruct (search _ _ _ _ _ h) as [[tm|e] h1]; [|done].
  destruct (_ || _); [|by apply IH].
  destruct (valid tm) eqn:Hv; [|by apply IH].
  by intros [= <- _ _].
Qed.

(** [search_and_wait] without [time_out] never returns an invalid
    match. *)
Theorem search_and_wait_no_timeout_valid fuel ref thr bm take_ss h w m h' w' :
  search_and_wait fuel ref None thr bm take_ss h w = Some (Ok m, h', w') ->
  valid m = true.
Proof. unfold search_and_wait. cbn [time_time]. apply loop_no_timeout_valid. Qed.

Lemma loop_invalid_timed_out ref time_out thr bm take_ss start fuel :
  forall h w m h' w',
    search_and_wait_loop fuel ref time_out thr bm take_ss start h w
    = Some (Ok m, h', w') ->
    valid m = false ->
    exists t, time_out = Some t
              /\ (clock_reads w < clock_reads w')%nat
              /\ (t < clock w (clock_reads w' - 1) - start)%Q.
Proof.
  induction fuel as [|fuel IH]; intros h w m h' w'; [done|].
  rewrite search_and_wait_loop_S. cbn [grab].
  destruct (search _ _ _ _ _ h) as [[tm|e] h1]; [|done].
  set (w1 := {| frames := frames w; grabs := S (grabs w) |}).
  assert (Hrec : forall w2,
            clock w2 = clock w -> (clock_reads w <= clock_reads w2)%nat ->
            search_and_wait_loop fuel ref time_out thr bm take_ss start h1 w2
            = Some (Ok m, h', w') ->
            valid m = false ->
            exists t, time_out = Some t
                      /\ (clock_reads w < clock_reads w')%nat
                      /\ (t < clock w (clock_reads w' - 1) - start)%Q).
  { intros w2 Hclk Hreads Hloop Hv.
    destruct (IH _ _ _ _ _ Hloop Hv) as (t & -> & Hlt & Hexp).
    exists t. rewrite Hclk in Hexp. repeat split; [lia | done]. }
  destruct (_ || _); [|by apply Hrec].
  destruct (valid tm) eqn:Hv.
  { intros [= <- _ _] Hv'. congruence. }
  destruct time_out as [t|]; [|by apply Hrec].
  cbn [time_time].
  destruct (Qltb t _) eqn:Hexp.
  2:{ apply Hrec; [done | simpl; lia]. }
  apply Qltb_lt in Hexp. cbn [clock clock_reads w1] in Hexp.
  intros Hret _. exists t. split; [done|].
  destruct (_ && _); injection Hret as _ _ <-;
    cbn [imwrite clock_reads]; rewrite Nat.sub_1_r; cbn [Nat.pred];
    (split; [lia | done]).
Qed.

(** An invalid match comes back only through the timeout: a [time_out]
    was given, and the last clock reading of the call was more than
    [time_out] after the start. *)
Theorem search_and_wait_invalid_timed_out fuel ref time_out thr bm take_ss
    h w m h' w' :
  search_and_wait fuel ref time_out thr bm take_ss h w = Some (Ok m, h', w') ->
  valid m = false ->
  exists t, time_out = Some t
            /\ (clock_reads w + 1 < clock_reads w')%nat
            /\ (t < clock w (clock_reads w' - 1) - clock w (clock_reads w))%Q.
Proof.
  unfold search_and_wait. cbn [time_time]. intros Hloop Hv.
  destruct (loop_invalid_timed_out _ _ _ _ _ _ _ _ _ _ _ _ Hloop Hv)
    as (t & -> & Hlt & Hexp).
  exists t. cbn [clock clock_reads] in *. repeat split; [lia | done].
Qed.

Lemma loop_written ref time_out thr bm take_ss start h0 fuel :
  forall h w r h' w',
    heap_like h0 h ->
    search_and_wait_loop fuel ref time_out thr bm take_ss start h w
    = Some (r, h', w') ->
    frames w' = frames w
    /\ (grabs w < grabs w')%nat
    /\ written w'
       = if timed_out r && info_screenshots (_config (self_obj h0)) && take_ss
         then frames w (grabs w' - 1) :: written w
         else written w.
Proof.
  induction fuel as [|fuel IH]; intros h w r h' w' Hlike; [done|].
  rewrite search_and_wait_loop_S. cbn [grab].
  pose proof (heap_like_search (KeyList ref) (frames w (grabs w)) (Some thr)
                false bm h0 h Hlike) as Hlike1.
  destruct (search _ _ _ _ _ h) as [[tm|e] h1]; cbn [snd] in Hlike1.
  2:{ intros [= <- _ <-]. cbn [timed_out andb frames grabs written].
      repeat split; lia. }
  rewrite (heap_like_config _ _ Hlike1).
  assert (Hrec : forall w2,
            frames w2 = frames w -> grabs w2 = S (grabs w) ->
            written w2 = written w ->
            search_and_wait_loop fuel ref time_out thr bm take_ss start h1 w2
            = Some (r, h', w') ->
            frames w' = frames w
            /\ (grabs w < grabs w')%nat
            /\ written w'
               = if timed_out r && info_screenshots (_config (self_obj h0))
                    && take_ss
                 then frames w (grabs w' - 1) :: written w
                 else written w).
  { intros w2 Hfr Hgr Hwr Hloop.
    destruct (IH _ _ _ _ _ Hlike1 Hloop) as (Hfr' & Hgr' & Hwr').
    split; [congruence|]. split; [lia|]. by rewrite Hwr', Hfr, Hwr. }
  destruct (_ || _); [|by apply Hrec].
  destruct (valid tm) eqn:Hv.
  { intros [= <- _ <-]. cbn [timed_out frames grabs written]. rewrite Hv.
    repeat split; simpl; lia. }
  destruct time_out as [t|]; [|by apply Hrec].
  cbn [time_time]. destruct (Qltb t _); [|by apply Hrec].
  destruct (info_screenshots _ && take_ss) eqn:Hflags.
  - intros [= <- _ <-]. cbn [timed_out imwrite frames grabs written].
    rewrite Hv. cbn [negb andb]. rewrite Hflags.
    rewrite Nat.sub_1_r. cbn [Nat.pred]. repeat split; lia.
  - intros [= <- _ <-]. cbn [timed_out frames grabs written].
    rewrite Hv. cbn [negb andb]. rewrite Hflags.
    repeat split; lia.
Qed.

(** What [search_and_wait] writes: on a timeout, when both the
    [info_screenshots] setting and [take_ss] are set, the frame grabbed
    last; otherwise (a valid match, an exception, a flag unset)
    nothing. *)
Theorem search_and_wait_written fuel ref time_out thr bm take_ss h w r h' w' :
  search_and_wait fuel ref time_out thr bm take_ss h w = Some (r, h', w') ->
  written w'
  = if timed_out r && info_screenshots (_config (self_obj h)) && take_ss
    then frames w (grabs w' - 1) :: written w
    else written w.
Proof.
  unfold search_and_wait. cbn [time_time]. intros Hloop.
  by destruct (loop_written _ _ _ _ _ _ h _ _ _ _ _ _ (heap_like_refl h) Hloop)
    as (_ & _ & ->).
Qed.

(** An unregistered key among those waited for ends the call in its
    first iteration with the [KeyError] of [search], after one grab. *)
Theorem search_and_wait_unknown_key fuel ref time_out thr bm take_ss h w :
  (exists k, k ∈ wait_keys ref /\ _templates (self_obj h) !! k = None) ->
  exists k,
    _templates (self_obj h) !! k = None
    /\ search_and_wait (S fuel) ref time_out thr bm take_ss h w
       = Some (Raise (KeyError k), h, (grab (time_time w).2).2).
Proof.
  intros Hmiss. destruct (lookup_all_missing _ _ Hmiss) as (k & Hk & Hl).
  exists k. split; [done|].
  unfold search_and_wait. cbn [time_time]. rewrite search_and_wait_loop_S.
  cbn [grab]. unfold search.
  destruct (roi_or_full _ _) as [[[rx0 ry0] rw0] rh0].
  cbn [dispatch]. by rewrite Hl.
Qed.

Lemma gate_open_true cfg (ref : list string) img :
  gate_open cfg ref img ->
  negb (is_loading_black_roi cfg img) || bool_decide ("LOADING"%string ∈ ref)
  = true.
Proof.
  intros [-> | Hin]; [done|].
  rewrite (bool_decide_eq_true_2 _ Hin). apply orb_true_r.
Qed.

Lemma loop_times_out_open ref t thr bm take_ss start h0 N :
  forall h w,
    (forall n, gate_open (_config (self_obj h0)) ref (frames w n)) ->
    (forall n, exists tm,
        (search (KeyList ref) (frames w n) (Some thr) false bm h0).1 = Ok tm
        /\ valid tm = false) ->
    heap_like h0 h ->
    (t < clock w (clock_reads w + N)%nat - start)%Q ->
    exists tm h' w',
      search_and_wait_loop (S N) ref (Some t) thr bm take_ss start h w
      = Some (Ok tm, h', w')
      /\ valid tm = false.
Proof.
  induction N as [|N IH]; intros h w Hopen Hnone Hlike Hclock.
  all: rewrite search_and_wait_loop_S; cbn [grab].
  all: destruct (Hnone (grabs w)) as (tm & Htm & Hinv).
  all: pose proof (heap_like_search (KeyList ref) (frames w (grabs w))
                     (Some thr) false bm h0 h Hlike) as Hlike1.
  all: destruct Hlike as [Hroi Hsame].
  all: rewrite <- (search_outcome_same _ _ _ _ _ _ _ Hroi Hsame) in Htm.
  all: destruct (search _ _ _ _ _ h) as [r h1]; simpl in Htm, Hlike1; subst r.
  all: rewrite (heap_like_config _ _ Hlike1), (gate_open_true _ _ _ (Hopen _)),
         Hinv.
  all: cbn [time_time clock clock_reads].
  - rewrite Nat.add_0_r in Hclock.
    rewrite (proj2 (Qltb_lt _ _) Hclock).
    destruct (_ && _); by do 3 eexists.
  - destruct (Qltb t (clock w (clock_reads w) - start)).
    { destruct (_ && _); by do 3 eexists. }
    apply IH; try done. simpl.
    by rewrite <- Nat.add_succ_r.
Qed.

(** With a timeout [t] of at least 0, frames on which nothing is found
    and on which the loading gate is open (lit strip, or ["LOADING"]
    among the keys, which bypasses the check), [search_and_wait] returns
    an invalid match within N+1 iterations when the (N+1)-th clock
    reading after the start is later than the start by more than [t]
    with a margin of one rounding error: the code subtracts the two
    readings in doubles before it compares. *)
Theorem search_and_wait_times_out ref t thr bm take_ss h w N :
  (0 <= t)%Q ->
  (forall n, gate_open (_config (self_obj h)) (wait_keys ref) (frames w n)) ->
  (forall n, exists tm,
      (search (KeyList (wait_keys ref)) (frames w n)
         (Some (resolve_threshold (self_obj h) thr)) false bm h).1 = Ok tm
      /\ valid tm = false) ->
  (t < (clock w (clock_reads w + S N)%nat - clock w (clock_reads w))
       * (1 - double_eps))%Q ->
  exists tm h' w',
    search_and_wait (S N) ref (Some t) thr bm take_ss h w
    = Some (Ok tm, h', w')
    /\ valid tm = false.
Proof.
  intros Ht Hopen Hnone Hclock. unfold search_and_wait. cbn [time_time].
  apply (loop_times_out_open _ _ _ _ _ _ h);
    [exact Hopen | exact Hnone | apply heap_like_refl |].
  cbn [clock clock_reads Nat.add]. rewrite Nat.add_succ_r in Hclock.
  unfold double_eps in Hclock. lra.
Qed.

Lemma loop_returns_first_match ref thr bm take_ss start h0 tm n :
  forall h w,
    (forall i, (i < n)%nat -> exists tm',
        (search (KeyList ref) (frames w (grabs w + i)) (Some thr) false bm h0).1
        = Ok tm' /\ valid tm' = false) ->
    (search (KeyList ref) (frames w (grabs w + n)) (Some thr) false bm h0).1
    = Ok tm ->
    valid tm = true ->
    gate_open (_config (self_obj h0)) ref (frames w (grabs w + n)) ->
    heap_like h0 h ->
    exists h' w',
      search_and_wait_loop (S n) ref None thr bm take_ss start h w
      = Some (Ok tm, h', w')
      /\ grabs w' = (grabs w + S n)%nat
      /\ clock_reads w' = clock_reads w
      /\ heap_like h0 h'.
Proof.
  induction n as [|n IH]; intros h w Hbefore Hfound Hvalid Hopen Hlike.
  all: rewrite search_and_wait_loop_S; cbn [grab].
  all: pose proof (heap_like_search (KeyList ref) (frames w (grabs w))
                     (Some thr) false bm h0 h Hlike) as Hlike1.
  all: destruct Hlike as [Hroi Hsame].
  - rewrite Nat.add_0_r in Hfound, Hopen.
    rewrite <- (search_outcome_same _ _ _ _ _ _ _ Hroi Hsame) in Hfound.
    destruct (search _ _ _ _ _ h) as [r h1]; simpl in Hfound, Hlike1; subst r.
    rewrite (heap_like_config _ _ Hlike1), (gate_open_true _ _ _ Hopen), Hvalid.
    do 2 eexists. split; [done|]. cbn [grabs clock_reads].
    split; [lia|]. split; [done | exact Hlike1].
  - destruct (Hbefore O ltac:(lia)) as (tm' & Htm' & Hinv).
    rewrite Nat.add_0_r in Htm'.
    rewrite <- (search_outcome_same _ _ _ _ _ _ _ Hroi Hsame) in Htm'.
    destruct (search _ _ _ _ _ h) as [r h1]; simpl in Htm', Hlike1; subst r.
    rewrite Hinv.
    assert (Hnext : exists h' w',
              search_and_wait_loop (S n) ref None thr bm take_ss start h1
                {| frames := frames w; clock := clock w; grabs := S (grabs w);
                   clock_reads := clock_reads w; written := written w |}
              = Some (Ok tm, h', w')
              /\ grabs w' = (grabs w + S (S n))%nat
              /\ clock_reads w' = clock_reads w
              /\ heap_like h0 h').
    { destruct (IH h1 {| frames := frames w; clock := clock w;
                         grabs := S (grabs w);
                         clock_reads := clock_reads w;
                         written := written w |})
        as (h' & w' & Hloop & Hg & Hc & Hl); cbn [frames grabs].
      - intros i Hi. replace (S (grabs w) + i)%nat with (grabs w + S i)%nat
          by lia. apply Hbefore. lia.
      - by replace (S (grabs w) + n)%nat with (grabs w + S n)%nat by lia.
      - done.
      - by replace (S (grabs w) + n)%nat with (grabs w + S n)%nat by lia.
      - done.
      - exists h', w'. split; [done|]. split; [cbn [grabs] in Hg; lia|].
        by split. }
    by destruct (_ || _).
Qed.

(** Waiting without a timeout: when the first frames show nothing and
    frame number n shows a valid match with the gate open,
    [search_and_wait] returns exactly that match after grabbing n+1
    frames, without ever reading the clock again. *)
Theorem search_and_wait_returns_first_match ref thr bm take_ss h w n tm :
  (forall i, (i < n)%nat -> exists tm',
      (search (KeyList (wait_keys ref)) (frames w (grabs w + i))
         (Some (resolve_threshold (self_obj h) thr)) false bm h).1 = Ok tm'
      /\ valid tm' = false) ->
  (search (KeyList (wait_keys ref)) (frames w (grabs w + n))
     (Some (resolve_threshold (self_obj h) thr)) false bm h).1 = Ok tm ->
  valid tm = true ->
  gate_open (_config (self_obj h)) (wait_keys ref) (frames w (grabs w + n)) ->
  exists h' w',
    search_and_wait (S n) ref None thr bm take_ss h w = Some (Ok tm, h', w')
    /\ grabs w' = (grabs w + S n)%nat
    /\ clock_reads w' = S (clock_reads w)
    /\ heap_like h h'.
Proof.
  intros Hbefore Hfound Hvalid Hopen. unfold search_and_wait. cbn [time_time].
  destruct (loop_returns_first_match (wait_keys ref)
              (resolve_threshold (self_obj h) thr) bm take_ss
              (clock w (clock_reads w)) h tm n h
              {| frames := frames w; clock := clock w; grabs := grabs w;
                 clock_reads := S (clock_reads w); written := written w |}
              Hbefore Hfound Hvalid Hopen (heap_like_refl h))
    as (h' & w' & Hloop & Hg & Hc & Hl).
  by exists h', w'.
Qed.

Lemma gate_open_of_true cfg (ref : list string) img :
  negb (is_loading_black_roi cfg img) || bool_decide ("LOADING"%string ∈ ref)
  = true ->
  gate_open cfg ref img.
Proof.
  intros [Hl | Hin]%orb_true_iff.
  - left. by apply negb_true_iff.
  - right. by apply bool_decide_eq_true_1 in Hin.
Qed.

Lemma loop_result ref time_out thr bm take_ss start h0 fuel :
  forall h w r h' w',
    heap_like h0 h ->
    search_and_wait_loop fuel ref time_out thr bm take_ss start h w
    = Some (r, h', w') ->
    frames w' = frames w
    /\ (grabs w < grabs w')%nat
    /\ heap_like h0 h'
    /\ r = (search (KeyList ref) (frames w (grabs w' - 1)) (Some thr) false bm
              h0).1
    /\ forall m, r = Ok m ->
                 gate_open (_config (self_obj h0)) ref
                   (frames w (grabs w' - 1)).
Proof.
  induction fuel as [|fuel IH]; intros h w r h' w' Hlike; [done|].
  rewrite search_and_wait_loop_S. cbn [grab].
  pose proof (heap_like_search (KeyList ref) (frames w (grabs w)) (Some thr)
                false bm h0 h Hlike) as Hlike1.
  destruct Hlike as [Hroi Hsame].
  pose proof (search_outcome_same (KeyList ref) (frames w (grabs w)) (Some thr)
                false bm h0 h Hroi Hsame) as Hout.
  destruct (search _ _ _ _ _ h) as [r1 h1]; cbn [fst snd] in Hlike1, Hout.
  assert (Hhere : forall w2,
            frames w2 = frames w -> grabs w2 = S (grabs w) ->
            frames w2 = frames w
            /\ (grabs w < grabs w2)%nat
            /\ heap_like h0 h1
            /\ r1 = (search (KeyList ref) (frames w (grabs w2 - 1)) (Some thr)
                       false bm h0).1).
  { intros w2 Hfr Hgr. rewrite Hgr, Nat.sub_1_r. cbn [Nat.pred].
    split; [done|]. split; [lia|]. split; [exact Hlike1 | done]. }
  assert (Hrec : forall w2,
            frames w2 = frames w -> grabs w2 = S (grabs w) ->
            search_and_wait_loop fuel ref time_out thr bm take_ss start h1 w2
            = Some (r, h', w') ->
            frames w' = frames w
            /\ (grabs w < grabs w')%nat
            /\ heap_like h0 h'
            /\ r = (search (KeyList ref) (frames w (grabs w' - 1)) (Some thr)
                      false bm h0).1
            /\ forall m, r = Ok m ->
                         gate_open (_config (self_obj h0)) ref
                           (frames w (grabs w' - 1))).
  { intros w2 Hfr Hgr Hloop.
    destruct (IH _ _ _ _ _ Hlike1 Hloop) as (Hfr' & Hgr' & Hl' & Hr & Hg).
    rewrite Hfr in Hr, Hg. split; [congruence|]. split; [lia|]. done. }
  destruct r1 as [tm|e].
  2:{ intros [= <- <- Hw].
      destruct (Hhere w') as (? & ? & ? & ?); [by subst w' ..|].
      do 4 (split; [done|]). done. }
  rewrite (heap_like_config _ _ Hlike1).
  destruct (_ || _) eqn:Hgate; [|by apply Hrec].
  apply gate_open_of_true in Hgate.
  destruct (valid tm).
  { intros [= <- <- Hw].
    destruct (Hhere w') as (? & ? & ? & ?); [by subst w' ..|].
    do 4 (split; [done|]). intros m _. subst w'. cbn [grabs].
    by rewrite Nat.sub_1_r. }
  destruct time_out as [t|]; [|by apply Hrec].
  cbn [time_time]. destruct (Qltb t _); [|by apply Hrec].
  destruct (_ && _); intros [= <- <- Hw];
    (destruct (Hhere w') as (? & ? & ? & ?); [by subst w' ..|]);
    (do 4 (split; [done|]); intros m _; subst w'; cbn [imwrite grabs];
     by rewrite Nat.sub_1_r).
Qed.

(** Whatever [search_and_wait] returns is the outcome of [search] on the
    frame grabbed last, and a match (valid or timed out) is returned
    only from a frame on which the loading gate is open. *)
Theorem search_and_wait_result fuel ref time_out thr bm take_ss h w r h' w' :
  search_and_wait fuel ref time_out thr bm take_ss h w = Some (r, h', w') ->
  r = (search (KeyList (wait_keys ref)) (frames w (grabs w' - 1))
         (Some (resolve_threshold (self_obj h) thr)) false bm h).1
  /\ forall m, r = Ok m ->
               gate_open (_config (self_obj h)) (wait_keys ref)
                 (frames w (grabs w' - 1)).
Proof.
  unfold search_and_wait. cbn [time_time]. intros Hloop.
  by destruct (loop_result _ _ _ _ _ _ h _ _ _ _ _ _ (heap_like_refl h) Hloop)
    as (_ & _ & _ & Hr & Hg).
Qed.

(** [search_and_wait] leaves the template store, the configuration, the
    scale factor and the caller's ROI list as they were, however many
    iterations it runs. *)
Theorem search_and_wait_mutates_only_last_res fuel ref time_out thr bm take_ss
    h w r h' w' :
  search_and_wait fuel ref time_out thr bm take_ss h w = Some (r, h', w') ->
  _templates (self_obj h') = _templates (self_obj h)
  /\ roi_obj h' = roi_obj h
  /\ _config (self_obj h') = _config (self_obj h)
  /\ _scale_factor (self_obj h') = _scale_factor (self_obj h).
Proof.
  unfold search_and_wait. cbn [time_time]. intros Hloop.
  destruct (loop_result _ _ _ _ _ _ h _ _ _ _ _ _ (heap_like_refl h) Hloop)
    as (_ & _ & (Hroi & Hcfg & Hsf & Htpl) & _).
  by repeat split.
Qed.



End WaitFacts.

(** * Construction of the template store *)

Section LoaderFacts.

Context {Image ScoreField : Type} `{CV : Cv2 Image ScoreField}.
Context `{AS : Assets Image}.

Implicit Types (h : Heap Image ScoreField) (img : Image).

Lemma is_lower_upper_ascii (c : Ascii.ascii) : is_lower (upper_ascii c) = false.
Proof.
  destruct c as [[] [] [] [] [] [] [] []]; vm_compute; reflexivity.
Qed.

Lemma has_lower_upper (s : string) : has_lower (py_upper s) = false.
Proof.
  induction s as [|c s IH]; simpl; [done|].
  by rewrite is_lower_upper_ascii, IH.
Qed.

Lemma key_of_file_no_lower (file_name key : string) :
  key_of_file file_name = Some key -> has_lower key = false.
Proof.
  unfold key_of_file. destruct (py_endswith _ _); [|done].
  intros [= <-]. apply has_lower_upper.
Qed.

(** The store after the loop over [pathes], started from [m0]. *)
Lemma fold_add_template_lookup (key : string) (pathes : list string) :
  forall m0 : gmap string (Image * Q),
    fold_left add_template pathes m0 !! key
    = match last_file_for key pathes with
      | Some p => Some (load_template p 1%Q, 1%Q)
      | None => m0 !! key
      end.
Proof.
  unfold last_file_for.
  induction pathes as [|p ps IH]; intros m0; [done|].
  cbn [fold_left]. rewrite IH, filter_cons.
  destruct (decide (key_of_file (basename p) = Some key)) as [Hp | Hp].
  - rewrite last_cons. destruct (last (filter _ ps)); [done|].
    unfold add_template. unfold key_of_file in Hp.
    destruct (py_endswith _ _); [|done]. injection Hp as ->.
    apply lookup_insert_eq.
  - destruct (last (filter _ ps)); [done|].
    unfold add_template. unfold key_of_file in Hp.
    destruct (py_endswith _ _); [|done].
    apply lookup_insert_ne. congruence.
Qed.




(** Keys are upper-cased: on a finder built by [__init__], asking for a
    key that contains a lowercase letter raises [KeyError], from
    [get_template] and from [search]. *)
Theorem init_lowercase_key_unknown cfg (npc tpls : list string) (key : string)
    img thr nm bm h :
  self_obj h = __init__ cfg npc tpls ->
  has_lower key = true ->
  get_template (self_obj h) key = Raise (KeyError key)
  /\ search (Key key) img thr nm bm h = (Raise (KeyError key), h).
Proof.
  intros Hself Hlow.
  assert (Hnone : _templates (self_obj h) !! key = None).
  { rewrite Hself. cbn [__init__ _templates].
    rewrite fold_add_template_lookup, lookup_empty.
    destruct (last_file_for key (npc ++ tpls)) as [p|] eqn:Hp; [|done].
    unfold last_file_for in Hp. apply last_Some_elem_of in Hp.
    apply list_elem_of_filter in Hp as [Hkey _].
    apply key_of_file_no_lower in Hkey. congruence. }
  split.
  - unfold get_template. by rewrite Hnone.
  - unfold search. destruct (roi_or_full _ _) as [[[rx0 ry0] rw0] rh0].
    cbn [dispatch]. by rewrite Hnone.
Qed.

End LoaderFacts.

(** * Runs on the stub kernel *)

Section StubRuns.

Import Stub.

(** C1, as stated, fails: every frame shows template B above threshold
    (the match is valid in every iteration), but the left strip is dark
    and ["LOADING"] is not asked for, so the loop never returns it. *)
Lemma found_not_returned_while_suppressed :
  let h := heap store3 None in
  let w := world (frame false true) in
  (forall n, exists tm,
      (search (KeyList ["B"]) (frames w n) (Some (1 # 2)%Q) false false h).1
      = Ok tm /\ valid tm = true)
  /\ forall fuel,
      search_and_wait fuel (WKey "B") (Some 5%Q) (Some (1 # 2)%Q) false true h w
      = None.
Proof.
  split.
  - intros n. eexists. split; vm_compute; reflexivity.
  - intros fuel. unfold search_and_wait. cbn [time_time wait_keys].
    apply (loop_suppressed_forever _ _ _ _ _ _ (heap store3 None)).
    + intros n. vm_compute. reflexivity.
    + apply not_elem_of_cons. split; [done | apply not_elem_of_nil].
    + intros n. eexists. vm_compute. reflexivity.
    + apply heap_like_refl.
Qed.

(** The same template on a frame whose left strip is lit: the first
    iteration returns it; on the dark frame the iteration returns
    nothing and the loop goes on with one iteration less to run. *)
Lemma found_returns_unless_suppressed_witness :
  let tm := {| name := Some "B"%string; score := (9 # 10)%Q;
               position := Some (6, 7); valid := true |} in
  let h := heap store3 None in
  let lit := world (frame false false) in
  let dark := world (frame false true) in
  search_and_wait_loop 1 ["B"] (Some 5%Q) (1 # 2)%Q false true 0%Q h lit
  = Some (Ok tm,
          (search (KeyList ["B"]) (grab lit).1 (Some (1 # 2)%Q) false false h).2,
          (grab lit).2)
  /\ search_and_wait_loop 1 ["B"] (Some 5%Q) (1 # 2)%Q false true 0%Q h dark
     = search_and_wait_loop 0 ["B"] (Some 5%Q) (1 # 2)%Q false true 0%Q
         (search (KeyList ["B"]) (grab dark).1 (Some (1 # 2)%Q) false false h).2
         (grab dark).2.
Proof.
  intros tm h lit dark.
  assert (Hlit : (search (KeyList ["B"]) (grab lit).1 (Some (1 # 2)%Q)
                    false false h).1 = Ok tm).
  { vm_compute. reflexivity. }
  assert (Hdark : (search (KeyList ["B"]) (grab dark).1 (Some (1 # 2)%Q)
                     false false h).1 = Ok tm).
  { vm_compute. reflexivity. }
  split.
  - apply (proj1 (found_returns_unless_suppressed 0 ["B"] (Some 5%Q) (1 # 2)%Q
                    false true 0%Q h lit tm Hlit)).
    + reflexivity.
    + left. vm_compute. reflexivity.
  - apply (proj2 (found_returns_unless_suppressed 0 ["B"] (Some 5%Q) (1 # 2)%Q
                    false true 0%Q h dark tm Hdark)).
    + vm_compute. reflexivity.
    + apply not_elem_of_cons. split; [done | apply not_elem_of_nil].
Defined.



(** The valid result of the best-match search over scores
    [0.4, 0.9, 0.9] at threshold 0.3. *)
Lemma search_valid_is_well_formed_witness :
  let h := heap store3 None in
  let m := {| name := Some "B"; score := (9 # 10)%Q;
              position := Some (6, 7); valid := true |} in
  is_Some (position m)
  /\ (resolve_threshold (self_obj h) (Some (3 # 10)%Q) < score m)%Q
  /\ score_evaluated (candidates (self_obj h) (KeyList ["A"; "B"; "C"]))
       (region (roi_obj h) (frame false false)) (score m)
  /\ ((-1 <= resolve_threshold (self_obj h) (Some (3 # 10)%Q))%Q ->
      ~ (score m == -1)%Q).
Proof.
  apply (search_valid_is_well_formed (KeyList ["A"; "B"; "C"]) (frame false false)
           (Some (3 # 10)%Q) false true (heap store3 None)).
  - vm_compute. reflexivity.
  - reflexivity.
Defined.

(** A list whose second key is not registered. *)
Lemma search_unknown_key_raises_witness :
  exists k,
    _templates (self_obj (heap store3 None)) !! k = None
    /\ search (KeyList ["A"; "ZZ"]) (frame false false) None false false (heap store3 None)
       = (Raise (KeyError k), heap store3 None).
Proof.
  apply (search_unknown_key_raises (KeyList ["A"; "ZZ"]) (frame false false) None false
           false (heap store3 None)).
  exists "ZZ"%string. split.
  - apply elem_of_cons. right. apply elem_of_cons. by left.
  - vm_compute. reflexivity.
Defined.

(** C3. Best-match mode at a negative threshold: the only candidate
    passes the guard and scores -0.2, above the threshold -0.5, yet the
    result is the invalid default; first-match mode on the same input
    returns the candidate. *)
Theorem best_match_drops_nonpositive_scores :
  let h := heap store_neg None in
  let c := (tpl (-1 # 5), 1%Q) in
  candidates (self_obj h) (KeyList ["A"]) = [c]
  /\ exceeds (region None (frame false false)) (-1 # 2) c = true
  /\ (search (KeyList ["A"]) (frame false false) (Some (-1 # 2)%Q) false true h).1
     = Ok TemplateMatch_default
  /\ (search (KeyList ["A"]) (frame false false) (Some (-1 # 2)%Q) false false h).1
     = Ok {| name := Some "A"; score := (-1 # 5)%Q;
             position := Some (6, 7); valid := true |}.
Proof. repeat split; vm_compute; reflexivity. Qed.

(** C6. Two candidates tie at -0.2, both above the threshold -0.5:
    best-match mode returns neither, the result carries no name. *)
Theorem best_match_tie_lost_on_nonpositive_scores :
  let h := heap store_tie_neg None in
  let c := (tpl (-1 # 5), 1%Q) in
  candidates (self_obj h) (KeyList ["A"; "B"]) = [c; c]
  /\ exceeds (region None (frame false false)) (-1 # 2) c = true
  /\ (search (KeyList ["A"; "B"]) (frame false false) (Some (-1 # 2)%Q)
        false true h).1
     = Ok TemplateMatch_default.
Proof. repeat split; vm_compute; reflexivity. Qed.

(** The stub of the specification: scores [0.4, 0.9, 0.9] at threshold
    0.3; best-match mode names the second candidate. *)
Example best_match_tie_example :
  (search (KeyList ["A"; "B"; "C"]) (frame false false) (Some (3 # 10)%Q)
     false true (heap store3 None)).1
  = Ok {| name := Some "B"; score := (9 # 10)%Q;
          position := Some (6, 7); valid := true |}.
Proof. vm_compute. reflexivity. Qed.


End StubRuns.

(** * Further runs on the stub kernel *)

Section MoreStubRuns.

Import Stub.

Lemma store3_unit : map_Forall (fun _ e => e.2 = 1%Q) store3.
Proof.
  unfold store3. repeat (apply map_Forall_insert_2; [reflexivity|]).
  apply map_Forall_empty.
Qed.

(** The stub's integers are far inside the exact range of doubles. *)
Lemma stub_roi_exact roi s dark :
  (forall rx0 ry0 rw0 rh0, roi = Some (rx0, ry0, rw0, rh0) ->
     Z.abs rx0 <= 1000 /\ Z.abs ry0 <= 1000
     /\ Z.abs rw0 <= 1000 /\ Z.abs rh0 <= 1000) ->
  roi_exact roi (frame s dark).
Proof.
  unfold roi_exact, double_exact. destruct roi as [[[[rx0 ry0] rw0] rh0]|].
  - intros H. destruct (H _ _ _ _ eq_refl) as (? & ? & ? & ?).
    cbn [roi_or_full]. change (2 ^ 53) with 9007199254740992. lia.
  - intros _. cbn. repeat split; discriminate.
Qed.

Lemma stub_centre_exact inp s q (ox oy : Z) :
  Z.abs ox <= 1000 -> Z.abs oy <= 1000 ->
  centre_exact inp (ox, oy) (tpl s, q).
Proof.
  intros Hx Hy. unfold centre_exact, double_exact. cbn.
  change (2 ^ 53) with 9007199254740992.
  change (Z.quot 6 2) with 3. change (Z.quot 4 2) with 2. lia.
Qed.

(** Scores [0.4, 0.9, 0.9] at threshold 0.5: first-match mode skips A
    and returns B. *)
Lemma first_match_returns_first_exceeding_witness :
  (search (KeyList ["A"; "B"; "C"]) (frame false false) (Some (1 # 2)%Q)
     false false (heap store3 None)).1
  = Ok {| name := Some "B"%string; score := (9 # 10)%Q;
          position := Some (6, 7); valid := true |}.
Proof.
  rewrite (first_match_returns_first_exceeding (KeyList ["A"; "B"; "C"])
             (frame false false) (Some (1 # 2)%Q) false (heap store3 None)
             [(tpl (4 # 10), 1%Q)] (tpl (9 # 10), 1%Q) [(tpl (9 # 10), 1%Q)]).
  - vm_compute. reflexivity.
  - exact store3_unit.
  - by apply stub_roi_exact.
  - vm_compute. reflexivity.
  - by apply (stub_centre_exact _ _ _ 0 0).
  - intros c' ->%list_elem_of_singleton. vm_compute. reflexivity.
  - vm_compute. reflexivity.
Defined.

(** The same scores at threshold 0.3 in best-match mode. *)
Lemma best_match_selects_first_maximum_witness :
  exists m i k,
    (search (KeyList ["A"; "B"; "C"]) (frame false false) (Some (3 # 10)%Q)
       false true (heap store3 None)).1 = Ok m
    /\ valid m = true
    /\ ["A"; "B"; "C"] !! i = Some k
    /\ name m = Some k.
Proof.
  destruct (best_match_selects_first_maximum ["A"; "B"; "C"]
              (frame false false) (Some (3 # 10)%Q) false (heap store3 None)
              [(tpl (4 # 10), 1%Q); (tpl (9 # 10), 1%Q); (tpl (9 # 10), 1%Q)])
    as (m & i & k & c & H1 & H2 & H3 & _ & _ & H6 & _).
  - vm_compute. reflexivity.
  - exact store3_unit.
  - by apply stub_roi_exact.
  - intros c Hc. repeat (apply elem_of_cons in Hc as [-> | Hc]);
      [by apply (stub_centre_exact _ _ _ 0 0) .. | by apply elem_of_nil in Hc].
  - vm_compute. discriminate.
  - exists (tpl (9 # 10), 1%Q). split.
    + apply elem_of_cons. right. apply elem_of_cons. by left.
    + vm_compute. reflexivity.
  - by exists m, i, k.
Defined.




(** On a blank frame the result is invalid, hence the default. *)
Lemma search_invalid_is_default_witness :
  exists m,
    (search (KeyList ["A"; "B"]) (frame true false) None false false
       (heap store3 None)).1 = Ok m
    /\ valid m = false
    /\ m = TemplateMatch_default.
Proof.
  eexists. split; [vm_compute; reflexivity|]. split; [reflexivity|].
  apply (search_invalid_is_default (KeyList ["A"; "B"]) (frame true false)
           None false false (heap store3 None)).
  - vm_compute. reflexivity.
  - reflexivity.
Defined.

(** The best match over [A, B, C] is named by one of the three keys. *)
Lemma search_valid_name_witness :
  exists k, k ∈ ["A"; "B"; "C"]
            /\ is_Some (_templates (self_obj (heap store3 None)) !! k)
            /\ name {| name := Some "B"; score := (9 # 10)%Q;
                       position := Some (6, 7); valid := true |} = Some k.
Proof.
  apply (search_valid_name (KeyList ["A"; "B"; "C"]) (frame false false)
           (Some (3 # 10)%Q) false true (heap store3 None)).
  - vm_compute. reflexivity.
  - reflexivity.
Defined.


Lemma search_key_as_singleton_list_witness :
  search (Key "B") (frame false false) None false true (heap store3 None)
  = search (KeyList ["B"]) (frame false false) None false false
      (heap store3 None).
Proof.
  apply (search_key_as_singleton_list "B" (frame false false) None false true
           (heap store3 None)).
  discriminate.
Defined.

(** A region of 5 x 5 pixels against templates of 4 rows and 6 columns:
    nothing is correlated. *)
Lemma search_guard_skips_all_witness :
  let h := heap store3 (Some (0, 0, 5, 5)) in
  (search (KeyList ["A"; "B"; "C"]) (frame false false) (Some 0%Q) false true
     h).2 = h
  /\ forall m,
      (search (KeyList ["A"; "B"; "C"]) (frame false false) (Some 0%Q) false
         true h).1 = Ok m ->
      m = TemplateMatch_default.
Proof.
  apply (search_guard_skips_all (KeyList ["A"; "B"; "C"]) (frame false false)
           (Some 0%Q) false true (heap store3 (Some (0, 0, 5, 5)))).
  assert (candidates (self_obj (heap store3 (Some (0, 0, 5, 5))))
            (KeyList ["A"; "B"; "C"])
          = [(tpl (4 # 10), 1%Q); (tpl (9 # 10), 1%Q); (tpl (9 # 10), 1%Q)])
    as -> by (vm_compute; reflexivity).
  intros c Hc. repeat (apply elem_of_cons in Hc as [-> | Hc]);
    [vm_compute; reflexivity .. | by apply elem_of_nil in Hc].
Defined.




Lemma init_lowercase_key_unknown_witness :
  get_template (self_obj (loaded_heap None)) "akara" = Raise (KeyError "akara")
  /\ search (Key "akara") (frame false false) None false false
       (loaded_heap None)
     = (Raise (KeyError "akara"), loaded_heap None).
Proof.
  apply (init_lowercase_key_unknown config npc_files template_files "akara"
           (frame false false) None false false (loaded_heap None)).
  - reflexivity.
  - reflexivity.
Defined.

Lemma search_and_wait_no_timeout_valid_witness :
  exists m h' w',
    search_and_wait 1 (WKey "B") None (Some (1 # 2)%Q) false true
      (heap store3 None) (world (frame false false))
    = Some (Ok m, h', w')
    /\ valid m = true.
Proof.
  do 3 eexists. split; [vm_compute; reflexivity|].
  eapply (search_and_wait_no_timeout_valid 1 (WKey "B") (Some (1 # 2)%Q) false
            true (heap store3 None) (world (frame false false))).
  vm_compute. reflexivity.
Defined.

(** A blank frame and timeout 0: the call ends at the second clock
    reading, one second after the start. *)
Lemma search_and_wait_invalid_timed_out_witness :
  exists m h' w',
    search_and_wait 1 (WKey "A") (Some 0%Q) (Some (1 # 2)%Q) false true
      (heap store3 None) (world (frame true false))
    = Some (Ok m, h', w')
    /\ valid m = false
    /\ exists t, Some 0%Q = Some t
                 /\ (clock_reads (world (frame true false)) + 1
                     < clock_reads w')%nat
                 /\ (t < clock (world (frame true false)) (clock_reads w' - 1)
                         - clock (world (frame true false))
                             (clock_reads (world (frame true false))))%Q.
Proof.
  do 3 eexists. split; [vm_compute; reflexivity|]. split; [reflexivity|].
  eapply (search_and_wait_invalid_timed_out 1 (WKey "A") (Some 0%Q)
            (Some (1 # 2)%Q) false true (heap store3 None)
            (world (frame true false))).
  - vm_compute. reflexivity.
  - reflexivity.
Defined.

(** With [info_screenshots] and [take_ss] set, the timeout writes the
    frame. *)
Lemma search_and_wait_written_witness :
  exists r h' w',
    search_and_wait 1 (WKey "A") (Some 0%Q) (Some (1 # 2)%Q) false true
      (heap_ss store3) (world (frame true false))
    = Some (r, h', w')
    /\ written w' = [frame true false].
Proof.
  do 3 eexists. split; [vm_compute; reflexivity|].
  etransitivity.
  - eapply (search_and_wait_written 1 (WKey "A") (Some 0%Q) (Some (1 # 2)%Q)
              false true (heap_ss store3) (world (frame true false))).
    vm_compute. reflexivity.
  - vm_compute. reflexivity.
Defined.

Lemma search_and_wait_unknown_key_witness :
  exists k,
    _templates (self_obj (heap store3 None)) !! k = None
    /\ search_and_wait 3 (WKeyList ["A"; "ZZ"]) None None false true
         (heap store3 None) (world (frame false false))
       = Some (Raise (KeyError k), heap store3 None,
               (grab (time_time (world (frame false false))).2).2).
Proof.
  apply (search_and_wait_unknown_key 2 (WKeyList ["A"; "ZZ"]) None None false
           true (heap store3 None) (world (frame false false))).
  exists "ZZ"%string. split.
  - apply elem_of_cons. right. apply elem_of_cons. by left.
  - vm_compute. reflexivity.
Defined.

(** Waiting for the loading screen itself on dark, blank frames with a
    timeout of 1.5 s: the bypass keeps the timeout alive. *)
Lemma search_and_wait_times_out_witness :
  exists tm h' w',
    search_and_wait 2 (WKey "LOADING") (Some (3 # 2)%Q) None false true
      (loaded_heap None) (world (frame true true))
    = Some (Ok tm, h', w')
    /\ valid tm = false.
Proof.
  apply (search_and_wait_times_out (WKey "LOADING") (3 # 2)%Q None false true
           (loaded_heap None) (world (frame true true)) 1).
  - vm_compute. discriminate.
  - intros n. right. apply elem_of_cons. by left.
  - intros n. eexists. split; vm_compute; reflexivity.
  - vm_compute. reflexivity.
Defined.

(** Two blank frames, then B: returned at the third grab. *)
Lemma search_and_wait_returns_first_match_witness :
  exists h' w',
    search_and_wait 3 (WKey "B") None (Some (1 # 2)%Q) false true
      (heap store3 None) (world_after 2)
    = Some (Ok {| name := Some "B"; score := (9 # 10)%Q;
                  position := Some (6, 7); valid := true |}, h', w')
    /\ grabs w' = (grabs (world_after 2) + 3)%nat
    /\ clock_reads w' = S (clock_reads (world_after 2))
    /\ heap_like (heap store3 None) h'.
Proof.
  apply (search_and_wait_returns_first_match (WKey "B") (Some (1 # 2)%Q) false
           true (heap store3 None) (world_after 2) 2).
  - intros [|[|i]] Hi; [| |lia]; eexists; split; vm_compute; reflexivity.
  - vm_compute. reflexivity.
  - reflexivity.
  - left. vm_compute. reflexivity.
Defined.

(** Two blank frames, then B: what comes back is the search result on
    the third frame. *)
Lemma search_and_wait_result_witness :
  exists r h' w',
    search_and_wait 3 (WKey "B") None (Some (1 # 2)%Q) false true
      (heap store3 None) (world_after 2)
    = Some (r, h', w')
    /\ r = (search (KeyList (wait_keys (WKey "B")))
              (frames (world_after 2) (grabs w' - 1))
              (Some (resolve_threshold (self_obj (heap store3 None))
                       (Some (1 # 2)%Q)))
              false false (heap store3 None)).1
    /\ forall m, r = Ok m ->
                 gate_open (_config (self_obj (heap store3 None)))
                   (wait_keys (WKey "B"))
                   (frames (world_after 2) (grabs w' - 1)).
Proof.
  do 3 eexists. split; [vm_compute; reflexivity|].
  eapply (search_and_wait_result 3 (WKey "B") None (Some (1 # 2)%Q) false true
            (heap store3 None) (world_after 2)).
  vm_compute. reflexivity.
Defined.

Lemma search_and_wait_mutates_only_last_res_witness :
  exists r h' w',
    search_and_wait 3 (WKey "B") None (Some (1 # 2)%Q) false true
      (heap store3 (Some (0, 0, 400, 300))) (world_after 2)
    = Some (r, h', w')
    /\ _templates (self_obj h') = store3
    /\ roi_obj h' = Some (0, 0, 400, 300)
    /\ _config (self_obj h') = config
    /\ _scale_factor (self_obj h') = 1%Q.
Proof.
  do 3 eexists. split; [vm_compute; reflexivity|].
  eapply (search_and_wait_mutates_only_last_res 3 (WKey "B") None
            (Some (1 # 2)%Q) false true
            (heap store3 (Some (0, 0, 400, 300))) (world_after 2)).
  vm_compute. reflexivity.
Defined.

End MoreStubRuns.
